(** * backend/app.py: document ingestion, retrieval and answer composition

    A shallow embedding of the chat backend.  Python [str] values are
    sequences of Unicode code points; values exchanged as JSON are kept
    as a small tagged union; the document store, the file system and the
    remote completion endpoint are explicit parts of a [world] that every
    operation threads through, and Python exceptions are the [Raise]
    branch of a result type.

    [print] is modelled in chat, where the printed text carries the
    question, the retrieved context or the answer (lines 280, 294 and
    305): it raises [UnicodeEncodeError] when stdout cannot encode the
    text.  The other prints are left out: they write literals of the
    source, paths, names, counts, the [repr] of the key and renderings
    of exceptions, which are taken as encodable, or, at line 77, a text
    whose failure is caught with the result its branch gives anyway. *)

From Stdlib Require Import String Ascii DecimalString.
From Stdlib Require Import List Arith Lia Bool NArith ZArith Floats.
From Stdlib Require QArith DecimalNat FinFun.
Import ListNotations.

Set Implicit Arguments.
Set Warnings "-register-all".

(** ** Text *)

Module Text.

(** A Python [str]: its code points, in order. *)
Definition str := list N.

(** A literal of the source, read as code points. *)
Definition lit (s : string) : str := map N_of_ascii (list_ascii_of_string s).

(** [a == b] *)
Fixpoint str_eqb (a b : str) : bool :=
  match a, b with
  | [], [] => true
  | x :: a', y :: b' => (x =? y)%N && str_eqb a' b'
  | _, _ => false
  end.

(** The line feed of the literal ["\n"]. *)
Definition newline : str := [10%N].

(** [Py_UNICODE_ISSPACE]: the characters [str.strip()] removes. *)
Definition isspace (c : N) : bool :=
  ((9 <=? c) && (c <=? 13) || (28 <=? c) && (c <=? 32) ||
   (c =? 133) || (c =? 160) || (c =? 5760) ||
   (8192 <=? c) && (c <=? 8202) || (c =? 8232) || (c =? 8233) ||
   (c =? 8239) || (c =? 8287) || (c =? 12288))%N.

Fixpoint lstrip (t : str) : str :=
  match t with
  | [] => []
  | c :: r => if isspace c then lstrip r else t
  end.

Definition rstrip (t : str) : str := rev (lstrip (rev t)).

(** [t.strip()] *)
Definition strip (t : str) : str := rstrip (lstrip t).

(** Empty, or made of whitespace only. *)
Definition whitespace_only (t : str) : bool := forallb isspace t.

(** Truth value of a [str]: non-empty. *)
Definition truthy (t : str) : bool :=
  match t with [] => false | _ => true end.

(** [t[i:j]] for [0 <= i <= j]; Python clips both ends to [len(t)]. *)
Definition slice (t : str) (i j : nat) : str := firstn (j - i) (skipn i t).

(** [sep.join(parts)] *)
Fixpoint join (sep : str) (parts : list str) : str :=
  match parts with
  | [] => []
  | [p] => p
  | p :: rest => p ++ sep ++ join sep rest
  end.

(** [str(n)] for a non-negative [int]. *)
Definition str_of_nat (n : nat) : str :=
  lit (NilEmpty.string_of_uint (Nat.to_uint n)).

(** [needle in hay] *)
Fixpoint is_prefix (p t : str) : bool :=
  match p, t with
  | [], _ => true
  | _ :: _, [] => false
  | a :: p', b :: t' => (a =? b)%N && is_prefix p' t'
  end.

Fixpoint contains (needle hay : str) : bool :=
  is_prefix needle hay ||
  match hay with
  | [] => false
  | _ :: hay' => contains needle hay'
  end.

End Text.
Import Text.

(** ** Python values

    What [json.loads] and [request.get_json()] hand to the code, and what
    the handlers return through [jsonify].  A [dict] is kept as its items
    in insertion order, with distinct keys. *)

Module Py.

Inductive json : Type :=
| JNull
| JBool (b : bool)
| JInt (z : Z)
| JFloat (f : float)
| JStr (s : str)
| JArr (items : list json)
| JObj (fields : list (str * json)).

Inductive exn : Type :=
| KeyError (key : json)
| IndexError
| TypeError
| AttributeError
| ValueError
| CollectionNotFound (name : str)
| CollectionExists (name : str)
| FileNotFound
| UnicodeEncodeError
| ExternalError (msg : str).

Inductive result (A : Type) : Type :=
| Ok (a : A)
| Raise (e : exn).
Arguments Ok {A} a.
Arguments Raise {A} e.

(** [bool(v)] *)
Definition py_truthy (v : json) : bool :=
  match v with
  | JNull => false
  | JBool b => b
  | JInt z => negb (z =? 0)%Z
  | JFloat f => negb (PrimFloat.eqb f PrimFloat.zero)
  | JStr s => truthy s
  | JArr items => match items with [] => false | _ => true end
  | JObj fields => match fields with [] => false | _ => true end
  end.

Fixpoint lookup {A} (k : str) (fields : list (str * A)) : option A :=
  match fields with
  | [] => None
  | (k', v) :: r => if str_eqb k k' then Some v else lookup k r
  end.

(** [v[key]] for a [str] key *)
Definition getitem (v : json) (key : str) : result json :=
  match v with
  | JObj fields =>
      match lookup key fields with
      | Some x => Ok x
      | None => Raise (KeyError (JStr key))
      end
  | _ => Raise TypeError
  end.

(** [v[0]] *)
Definition getitem0 (v : json) : result json :=
  match v with
  | JArr items =>
      match items with
      | x :: _ => Ok x
      | [] => Raise IndexError
      end
  | JStr s =>
      match s with
      | c :: _ => Ok (JStr [c])
      | [] => Raise IndexError
      end
  | JObj _ => Raise (KeyError (JInt 0))
  | _ => Raise TypeError
  end.

(** [v.get(key, default)]: only a [dict] has the method. *)
Definition dict_get (v : json) (key : str) (default : json) : result json :=
  match v with
  | JObj fields =>
      match lookup key fields with
      | Some x => Ok x
      | None => Ok default
      end
  | _ => Raise AttributeError
  end.

(** [len(v)] *)
Definition py_len (v : json) : result nat :=
  match v with
  | JStr s => Ok (length s)
  | JArr items => Ok (length items)
  | JObj fields => Ok (length fields)
  | _ => Raise TypeError
  end.

(** [v[:100]]: a [str] or a [list] can be sliced; on a [dict] the slice
    is refused (as unhashable, a [TypeError], up to Python 3.11; as a
    missing key from 3.12 on). *)
Definition slice100 (v : json) : result json :=
  match v with
  | JStr s => Ok (JStr (firstn 100 s))
  | JArr items => Ok (JArr (firstn 100 items))
  | _ => Raise TypeError
  end.

End Py.
Import Py.

(** ** Chunking (load_document_to_chroma, lines 157-160) *)

Module Chunking.

(** [range(start, stop, step)] for non-negative arguments; a zero step is
    a [ValueError]. *)
Definition range_len (start stop step : nat) : nat :=
  if start <? stop then (stop - start - 1) / step + 1 else 0.

Definition py_range (start stop step : nat) : result (list nat) :=
  match step with
  | 0 => Raise ValueError
  | _ => Ok (map (fun k => start + k * step) (seq 0 (range_len start stop step)))
  end.

(** [[content[i:i+chunk_size] for i in range(0, len(content), chunk_size)]] *)
Definition slices (content : str) (chunk_size : nat) : result (list str) :=
  match py_range 0 (length content) chunk_size with
  | Ok idx => Ok (map (fun i => slice content i (i + chunk_size)) idx)
  | Raise e => Raise e
  end.

(** [[chunk for chunk in chunks if chunk.strip()]] *)
Definition drop_blank (chunks : list str) : list str :=
  filter (fun chunk => truthy (strip chunk)) chunks.

Definition chunk (content : str) (chunk_size : nat) : result (list str) :=
  match slices content chunk_size with
  | Ok chunks => Ok (drop_blank chunks)
  | Raise e => Raise e
  end.

Definition chunk_size : nat := 1000.

End Chunking.
Import Chunking.

(** ** The world outside the source

    The persisted store, the two candidate document files, the
    environment variable, the remote completion endpoint, stdout and the
    failures of external calls.  Every external call consumes one entry
    of [faults]: [Some e] makes that call raise [e], [None] (or an
    exhausted schedule) lets it run.  A failing call has no effect,
    except the removal of the store directory, which may fail midway.

    chromadb keeps one System for a path in a process: once the process
    has opened the store ([store_open]), opening it again gives the
    collections the process holds, also after the directory has been
    removed from disk ([chroma_removed]). *)

Module World.

(** A collection: its records [(id, document)] in insertion order. *)
Definition coll := list (str * str).

(** The persisted store: its collections by name. *)
Definition db := list (str * coll).

(** A [Collection] object: it designates its collection by name. *)
Definition handle := str.

Record http_request : Type := {
  url : str;
  authorization : str;
  content_type : str;
  model : str;
  messages : list (str * json);
  temperature : QArith_base.Q;
  max_tokens : nat;
  timeout : nat
}.

Record http_response : Type := {
  status_code : nat;
  text : str;
  json_body : result json          (* what [response.json()] gives *)
}.

Record world : Type := {
  api_key_env : option str;        (* os.getenv('DEEPSEEK_API_KEY'), the .env file read *)
  chroma_dir : option db;          (* the store chroma_db, on disk or as the process
                                      holds it; None when there is none *)
  doc_my_data : option str;        (* my_data/MLTrainingDoc.txt *)
  doc_current : option str;        (* MLTrainingDoc.txt *)
  distance : json -> str -> nat;   (* the index's ranking of a document for a query *)
  remote : http_request -> result http_response;
  sent : list http_request;        (* requests posted so far, oldest first *)
  faults : list (option exn);
  chroma_collection : option handle; (* the module-level global *)
  store_open : bool;               (* this process has opened the store *)
  chroma_removed : bool;           (* the directory is gone from disk; the store is
                                      what the process still holds *)
  leftover : db -> db;             (* what a removal that fails midway leaves *)
  stdout_encodes : str -> bool     (* whether sys.stdout can encode a text *)
}.

Definition with_dir (d : option db) (w : world) : world :=
  {| api_key_env := api_key_env w; chroma_dir := d;
     doc_my_data := doc_my_data w; doc_current := doc_current w;
     distance := distance w; remote := remote w; sent := sent w;
     faults := faults w; chroma_collection := chroma_collection w;
     store_open := store_open w; chroma_removed := chroma_removed w;
     leftover := leftover w; stdout_encodes := stdout_encodes w |}.

Definition with_sent (l : list http_request) (w : world) : world :=
  {| api_key_env := api_key_env w; chroma_dir := chroma_dir w;
     doc_my_data := doc_my_data w; doc_current := doc_current w;
     distance := distance w; remote := remote w; sent := l;
     faults := faults w; chroma_collection := chroma_collection w;
     store_open := store_open w; chroma_removed := chroma_removed w;
     leftover := leftover w; stdout_encodes := stdout_encodes w |}.

Definition with_faults (f : list (option exn)) (w : world) : world :=
  {| api_key_env := api_key_env w; chroma_dir := chroma_dir w;
     doc_my_data := doc_my_data w; doc_current := doc_current w;
     distance := distance w; remote := remote w; sent := sent w;
     faults := f; chroma_collection := chroma_collection w;
     store_open := store_open w; chroma_removed := chroma_removed w;
     leftover := leftover w; stdout_encodes := stdout_encodes w |}.

Definition with_collection (c : option handle) (w : world) : world :=
  {| api_key_env := api_key_env w; chroma_dir := chroma_dir w;
     doc_my_data := doc_my_data w; doc_current := doc_current w;
     distance := distance w; remote := remote w; sent := sent w;
     faults := faults w; chroma_collection := c;
     store_open := store_open w; chroma_removed := chroma_removed w;
     leftover := leftover w; stdout_encodes := stdout_encodes w |}.

(** The store as a process holds or finds it: its collections, whether
    the process has it open and whether its directory is gone. *)
Definition with_store (d : option db) (opened removed : bool) (w : world) : world :=
  {| api_key_env := api_key_env w; chroma_dir := d;
     doc_my_data := doc_my_data w; doc_current := doc_current w;
     distance := distance w; remote := remote w; sent := sent w;
     faults := faults w; chroma_collection := chroma_collection w;
     store_open := opened; chroma_removed := removed;
     leftover := leftover w; stdout_encodes := stdout_encodes w |}.

(** Computations of the source: a result, or an exception, and the world
    as the computation left it. *)
Definition M (A : Type) : Type := world -> result A * world.

Definition ret {A} (a : A) : M A := fun w => (Ok a, w).

Definition bind {A B} (m : M A) (k : A -> M B) : M B :=
  fun w =>
    match m w with
    | (Ok a, w') => k a w'
    | (Raise e, w') => (Raise e, w')
    end.

(** [try: body  except Exception as e: handler e] *)
Definition try_except {A} (body : M A) (handler : exn -> M A) : M A :=
  fun w =>
    match body w with
    | (Ok a, w') => (Ok a, w')
    | (Raise e, w') => handler e w'
    end.

Definition lift {A} (r : result A) : M A := fun w => (r, w).

Definition external {A} (op : M A) : M A :=
  fun w =>
    match faults w with
    | Some e :: rest => (Raise e, with_faults rest w)
    | None :: rest => op (with_faults rest w)
    | [] => op w
    end.

End World.
Import World.

Declare Scope py_scope.
Notation "x <- m ;; k" := (bind m (fun x => k))
  (at level 61, m at next level, right associativity) : py_scope.
Notation "m ;;; k" := (bind m (fun _ => k))
  (at level 61, right associativity) : py_scope.
Open Scope py_scope.

(** ** The document store and the file system, as the code calls them *)

Module Store.

Fixpoint replace (name : str) (c : coll) (d : db) : db :=
  match d with
  | [] => []
  | (n, c') :: r =>
      if str_eqb name n then (n, c) :: r else (n, c') :: replace name c r
  end.

Definition find_coll (h : handle) (w : world) : option coll :=
  match chroma_dir w with
  | Some d => lookup h d
  | None => None
  end.

Fixpoint has_dup (ids : list str) : bool :=
  match ids with
  | [] => false
  | i :: r => existsb (str_eqb i) r || has_dup r
  end.

(** Stable insertion by increasing distance. *)
Fixpoint insert_by (d : str -> nat) (x : str) (l : list str) : list str :=
  match l with
  | [] => [x]
  | y :: r => if d x <=? d y then x :: l else y :: insert_by d x r
  end.

Definition nearest (d : str -> nat) (docs : list str) : list str :=
  fold_right (insert_by d) [] docs.

(** [os.path.exists(chroma_path)] *)
Definition chroma_path_exists : M bool :=
  fun w =>
    (Ok (match chroma_dir w with
         | Some _ => negb (chroma_removed w)
         | None => false
         end), w).

(** The store after a removal that failed midway. *)
Definition partly_removed (w : world) : world :=
  match chroma_dir w with
  | Some d => if chroma_removed w then w else with_dir (Some (leftover w d)) w
  | None => w
  end.

(** A removal that goes through: the directory is gone; a process that
    has the store open keeps serving what it holds. *)
Definition removed (w : world) : result unit * world :=
  match chroma_dir w with
  | Some d =>
      if chroma_removed w then (Raise FileNotFound, w)
      else if store_open w then (Ok tt, with_store (Some d) true true w)
      else (Ok tt, with_store None false false w)
  | None => (Raise FileNotFound, w)
  end.

(** [shutil.rmtree(chroma_path)]: the entries are deleted one by one, and
    a failure leaves what was not yet deleted. *)
Definition rmtree : M unit :=
  fun w =>
    match faults w with
    | Some e :: rest => (Raise e, partly_removed (with_faults rest w))
    | None :: rest => removed (with_faults rest w)
    | [] => removed w
    end.

(** [chromadb.PersistentClient(path=chroma_path)]: a process that has
    the store open is given the System it holds; otherwise the directory
    is opened, and created when it is not there. *)
Definition PersistentClient : M unit :=
  external (fun w =>
    match chroma_dir w with
    | Some d =>
        if chroma_removed w && negb (store_open w)
        then (Ok tt, with_store (Some []) true false w)
        else (Ok tt, with_store (Some d) true (chroma_removed w) w)
    | None => (Ok tt, with_store (Some []) true false w)
    end).

(** The state of the store for a process that starts: nothing is open,
    and what an earlier process held of a removed directory is gone with
    that process. *)
Definition new_process : M unit :=
  fun w =>
    (Ok tt,
     if chroma_removed w then with_store None false false w
     else with_store (chroma_dir w) false false w).

(** [client.list_collections()]; line 102 only prints the names. *)
Definition list_collections : M (list str) :=
  external (fun w =>
    match chroma_dir w with
    | Some d => (Ok (map fst d), w)
    | None => (Raise FileNotFound, w)
    end).

(** [client.get_collection(name)] *)
Definition get_collection (name : str) : M handle :=
  external (fun w =>
    match find_coll name w with
    | Some _ => (Ok name, w)
    | None => (Raise (CollectionNotFound name), w)
    end).

(** [client.create_collection(name)] *)
Definition create_collection (name : str) : M handle :=
  external (fun w =>
    match chroma_dir w with
    | Some d =>
        match lookup name d with
        | Some _ => (Raise (CollectionExists name), w)
        | None => (Ok name, with_dir (Some (d ++ [(name, [])])) w)
        end
    | None => (Raise FileNotFound, w)
    end).

(** [collection.get()['ids']] *)
Definition coll_get_ids (h : handle) : M (list str) :=
  external (fun w =>
    match find_coll h w with
    | Some c => (Ok (map fst c), w)
    | None => (Raise (CollectionNotFound h), w)
    end).

(** [collection.add(documents=..., ids=...)]: the batch must be
    non-empty, of matching lengths and free of repeated ids; records
    whose id is already stored are skipped. *)
Definition coll_add (h : handle) (documents ids : list str) : M unit :=
  external (fun w =>
    match chroma_dir w, find_coll h w with
    | Some d, Some c =>
        if (match ids with [] => true | _ => false end)
           || negb (length ids =? length documents)
           || has_dup ids
        then (Raise ValueError, w)
        else
          let fresh :=
            filter (fun r => match lookup (fst r) c with
                             | Some _ => false | None => true end)
                   (combine ids documents) in
          (Ok tt, with_dir (Some (replace h (c ++ fresh) d)) w)
    | _, _ => (Raise (CollectionNotFound h), w)
    end).

(** [collection.query(query_texts=[question], n_results=n)['documents']]:
    a query text that is not a [str] is refused. *)
Definition coll_query (h : handle) (question : json) (n : nat)
  : M (option (list (list str))) :=
  external (fun w =>
    match question with
    | JStr _ =>
        match find_coll h w with
        | Some c =>
            (Ok (Some [firstn n (nearest (distance w question) (map snd c))]), w)
        | None => (Raise (CollectionNotFound h), w)
        end
    | _ => (Raise ValueError, w)
    end).

Inductive doc_path : Type := InMyData | InCurrent.

Definition doc_at (p : doc_path) (w : world) : option str :=
  match p with
  | InMyData => doc_my_data w
  | InCurrent => doc_current w
  end.

(** [os.path.exists(path)] for a candidate document path *)
Definition doc_exists (p : doc_path) : M bool :=
  fun w => (Ok (match doc_at p w with Some _ => true | None => false end), w).

(** [open(doc_path, 'r', encoding='utf-8').read()] *)
Definition read_document (p : doc_path) : M str :=
  external (fun w =>
    match doc_at p w with
    | Some content => (Ok content, w)
    | None => (Raise FileNotFound, w)
    end).

(** [os.getcwd()] where only its failure matters: the value is printed. *)
Definition os_getcwd : M unit := external (ret tt).

(** [load_dotenv(env_path)]: reading the file can fail; what it adds to
    the environment is part of [api_key_env]. *)
Definition load_dotenv : M unit := external (ret tt).

(** [print(text)] *)
Definition py_print (text : str) : M unit :=
  fun w =>
    if stdout_encodes w text then (Ok tt, w) else (Raise UnicodeEncodeError, w).

(** [os.getenv('DEEPSEEK_API_KEY')] *)
Definition getenv_api_key : M (option str) :=
  fun w => (Ok (api_key_env w), w).

(** [requests.post(...)]: the request leaves, the endpoint answers or
    the transport fails. *)
Definition requests_post (req : http_request) : M http_response :=
  fun w => (remote w req, with_sent (sent w ++ [req]) w).

(** The document the ingestion reads: my_data first, then the current
    directory. *)
Definition source_document (w : world) : option str :=
  match doc_my_data w with
  | Some content => Some content
  | None => doc_current w
  end.

(** Number of chunks stored under [name]. *)
Definition stored_count (name : str) (w : world) : nat :=
  match find_coll name w with
  | Some c => length c
  | None => 0
  end.

Definition get_chroma_collection : M (option handle) :=
  fun w => (Ok (chroma_collection w), w).

Definition set_chroma_collection (c : option handle) : M unit :=
  fun w => (Ok tt, with_collection c w).

End Store.
Import Store.

(** ** The application (backend/app.py) *)

Module App.

Definition placeholder_key : str := lit "your_deepseek_api_key_here".
Definition collection_name : str := lit "andy_knowledge_base".
Definition completions_url : str := lit "https://api.deepseek.com/v1/chat/completions".

(** [not api_key] for the value of [os.getenv] *)
Definition key_missing (api_key : option str) : bool :=
  match api_key with
  | None => true
  | Some k => negb (truthy k)
  end.

(** load_environment (lines 33-49) *)
Definition load_environment : M bool :=
  os_getcwd ;;;
  load_dotenv ;;;
  api_key <- getenv_api_key ;;
  if key_missing api_key
     || match api_key with
        | Some k => str_eqb k placeholder_key
        | None => false
        end
  then ret false
  else ret true.

(** test_deepseek_key (lines 52-81) *)
Definition test_deepseek_key (api_key : str) : M bool :=
  let req :=
    {| url := completions_url;
       authorization := lit "Bearer " ++ api_key;
       content_type := lit "application/json";
       model := lit "deepseek-chat";
       messages := [(lit "user", JStr (lit "Hello, are you working?"))];
       temperature := QArith_base.Qmake 7 10;
       max_tokens := 50;
       timeout := 10 |} in
  try_except
    (response <- requests_post req ;;
     if status_code response =? 200 then ret true else ret false)
    (fun _ => ret false).

(** setup_chromadb (lines 84-126) *)
Definition setup_chromadb : M (option handle) :=
  try_except
    (present <- chroma_path_exists ;;
     (if present then try_except rmtree (fun _ => ret tt) else ret tt) ;;;
     PersistentClient ;;;
     list_collections ;;;
     collection <- try_except (get_collection collection_name)
                              (fun _ => create_collection collection_name) ;;
     ret (Some collection))
    (fun _ =>
       try_except
         (PersistentClient ;;;
          collection <- create_collection collection_name ;;
          ret (Some collection))
         (fun _ => ret None)).

(** The first candidate path that exists (lines 133-142). *)
Definition locate_document : M (option doc_path) :=
  in_my_data <- doc_exists InMyData ;;
  if in_my_data then ret (Some InMyData)
  else
    in_current <- doc_exists InCurrent ;;
    if in_current then ret (Some InCurrent) else ret None.

(** [f"chunk_{i}" for i in range(len(chunks))] *)
Definition chunk_ids (chunks : list str) : list str :=
  map (fun i => lit "chunk_" ++ str_of_nat i) (seq 0 (length chunks)).

(** The guarded insertion of load_document_to_chroma (lines 162-175). *)
Definition bulk_insert (collection : handle) (chunks : list str) : M unit :=
  try_except
    (existing_ids <- coll_get_ids collection ;;
     match existing_ids with
     | [] => coll_add collection chunks (chunk_ids chunks)
     | _ :: _ => ret tt
     end)
    (fun _ => ret tt).

(** load_document_to_chroma (lines 129-178) *)
Definition load_document_to_chroma (collection : handle) : M unit :=
  try_except
    (doc <- locate_document ;;
     match doc with
     | None => ret tt
     | Some path =>
         content <- read_document path ;;
         if negb (truthy (strip content)) then ret tt
         else
           chunks <- lift (chunk content chunk_size) ;;
           bulk_insert collection chunks
     end)
    (fun _ => ret tt).

(** Module initialisation, first part (lines 196-204): the credential is
    tried against the endpoint when the environment provides a usable
    one. *)
Definition check_credential : M unit :=
  configured <- load_environment ;;
  if configured then
    api_key <- getenv_api_key ;;
    match api_key with
    | Some k => if truthy k then test_deepseek_key k ;;; ret tt else ret tt
    | None => ret tt
    end
  else ret tt.

(** Module initialisation (lines 196-215), the first code a process
    runs. *)
Definition startup : M unit :=
  new_process ;;;
  check_credential ;;;
  collection <- setup_chromadb ;;
  set_chroma_collection collection ;;;
  match collection with
  | Some c => load_document_to_chroma c
  | None => ret tt
  end.

Definition persona : str :=
  lit "You are Andy. Answer questions about yourself based on the provided context. If the context doesn't contain relevant information, say you don't have that information rather than making things up.".

Definition fallback_clause : str :=
  lit " Since no specific context was provided, answer based on your general knowledge but identify yourself as Andy.".

Definition config_error : str :=
  lit "Error: API key not configured. Please check your .env file.".

(** The system message of ask_deepseek (lines 228-232). *)
Definition system_content (context : str) : str :=
  if truthy context
  then persona ++ (lit " Context: " ++ context)
  else persona ++ fallback_clause.

(** The request of ask_deepseek (lines 223-250). *)
Definition completion_request (api_key : str) (question : json) (context : str)
  : http_request :=
  {| url := completions_url;
     authorization := lit "Bearer " ++ api_key;
     content_type := lit "application/json";
     model := lit "deepseek-chat";
     messages := [(lit "system", JStr (system_content context));
                  (lit "user", question)];
     temperature := QArith_base.Qmake 7 10;
     max_tokens := 500;
     timeout := 30 |}.

(** [response.json()["choices"][0]["message"]["content"]] *)
Definition completion_text (response : http_response) : result json :=
  match json_body response with
  | Raise e => Raise e
  | Ok body =>
      match getitem body (lit "choices") with
      | Raise e => Raise e
      | Ok choices =>
          match getitem0 choices with
          | Raise e => Raise e
          | Ok choice =>
              match getitem choice (lit "message") with
              | Raise e => Raise e
              | Ok message => getitem message (lit "content")
              end
          end
      end
  end.

(** The message for a status other than 200 (lines 255-262). *)
Definition error_msg (response : http_response) : str :=
  let base := lit "API Error: Status " ++ str_of_nat (status_code response) in
  if status_code response =? 401 then
    base ++ lit " - Invalid API key. Please check your DEEPSEEK_API_KEY in .env file."
  else if status_code response =? 429 then
    base ++ lit " - Rate limit exceeded or insufficient credits."
  else
    base ++ (lit " - " ++ text response).

Record reply : Type := {
  response : json;
  success : bool
}.

Record reset_reply : Type := {
  reset_success : bool;
  message : str
}.

Section Handlers.

(** [str(e)]: the interpreter's rendering of an exception. *)
Variable str_exn : exn -> str.

(** [repr(v)] for a value that is not a [str]: the interpreter's
    rendering. *)
Variable repr_value : json -> str.

(** ask_deepseek (lines 218-265) *)
Definition ask_deepseek (question : json) (context : str) : M json :=
  api_key <- getenv_api_key ;;
  match api_key with
  | None => ret (JStr config_error)
  | Some key =>
      if negb (truthy key) then
        ret (JStr config_error)
      else
        try_except
          (response <- requests_post (completion_request key question context) ;;
           if status_code response =? 200 then lift (completion_text response)
           else ret (JStr (error_msg response)))
          (fun e => ret (JStr (lit "Network Error: " ++ str_exn e)))
  end.

(** The line printed at line 294 for a non-empty context. *)
Definition context_line (context : str) : str :=
  lit "Found context: " ++ firstn 100 context ++ lit "...".

(** The context lookup of chat (lines 283-300).  A failure of the print
    at line 294 is taken by the handler of line 297 like one of the
    query, after [context] has been assigned at line 293. *)
Definition retrieve (question : json) : M str :=
  collection <- get_chroma_collection ;;
  match collection with
  | Some c =>
      try_except
        (documents <- coll_query c question 3 ;;
         match documents with
         | Some (first :: _) =>
             match first with
             | _ :: _ =>
                 let context := join newline first in
                 try_except
                   (if truthy context then py_print (context_line context)
                    else ret tt)
                   (fun _ => ret tt) ;;;
                 ret context
             | [] => ret []
             end
         | _ => ret []
         end)
        (fun _ => ret [])
  | None => ret []
  end.

(** [f"{v}"]: a [str] as it is, any other value by its [repr]. *)
Definition format_value (v : json) : str :=
  match v with
  | JStr s => s
  | _ => repr_value v
  end.

(** The line printed at line 280. *)
Definition received_line (question : json) : str :=
  lit "Received question: " ++ format_value question.

(** The line printed at line 305: the answer is measured and, when
    longer than 100, sliced. *)
Definition response_line (answer : json) : result str :=
  match py_len answer with
  | Raise e => Raise e
  | Ok n =>
      if 100 <? n then
        match slice100 answer with
        | Raise e => Raise e
        | Ok head => Ok (lit "Generated response: " ++ format_value head ++ lit "...")
        end
      else Ok (lit "Generated response: " ++ format_value answer)
  end.

(** The reply of the question guard (lines 274-278). *)
Definition no_question : reply :=
  {| response := JStr (lit "Please provide a question"); success := false |}.

(** The reply of the catch-all handler of chat (lines 312-318). *)
Definition server_error (e : exn) : reply :=
  {| response := JStr (lit "Server Error: " ++ str_exn e); success := false |}.

(** chat (lines 268-318); the argument is what [request.get_json()]
    gives. *)
Definition chat (get_json : result json) : M reply :=
  try_except
    (data <- lift get_json ;;
     question <- lift (dict_get data (lit "question") (JStr [])) ;;
     if negb (py_truthy question) then ret no_question
     else
       py_print (received_line question) ;;;
       context <- retrieve question ;;
       answer <- ask_deepseek question context ;;
       line <- lift (response_line answer) ;;
       py_print line ;;;
       ret {| response := answer; success := true |})
    (fun e => ret (server_error e)).

(** reset_chroma (lines 367-391) *)
Definition reset_chroma : M reset_reply :=
  try_except
    (present <- chroma_path_exists ;;
     (if present then rmtree else ret tt) ;;;
     collection <- setup_chromadb ;;
     set_chroma_collection collection ;;;
     match collection with
     | Some c => load_document_to_chroma c
     | None => ret tt
     end ;;;
     ret {| reset_success := true; message := lit "ChromaDB reset successfully" |})
    (fun e =>
       ret {| reset_success := false;
              message := lit "Error resetting ChromaDB: " ++ str_exn e |}).

End Handlers.

(** What a run of set-up and ingestion leaves behind in a world where no
    call fails. *)
Definition ingested (chunks : list str) (w : world) : Prop :=
  faults w = [] /\
  chroma_collection w = Some collection_name /\
  chroma_dir w = Some [(collection_name, combine (chunk_ids chunks) chunks)] /\
  store_open w = true.

End App.
Import App.

(** ** Sample worlds and messages *)

Module Fixtures.

(** A rendering of exceptions by the name of their class. *)
Definition class_name (e : exn) : str :=
  match e with
  | KeyError _ => lit "KeyError"
  | IndexError => lit "IndexError"
  | TypeError => lit "TypeError"
  | AttributeError => lit "AttributeError"
  | ValueError => lit "ValueError"
  | CollectionNotFound _ => lit "CollectionNotFound"
  | CollectionExists _ => lit "CollectionExists"
  | FileNotFound => lit "FileNotFoundError"
  | UnicodeEncodeError => lit "UnicodeEncodeError"
  | ExternalError msg => msg
  end.

(** A rendering of values by the name of their type. *)
Definition type_name (v : json) : str :=
  match v with
  | JNull => lit "None"
  | JBool _ => lit "bool"
  | JInt _ => lit "int"
  | JFloat _ => lit "float"
  | JStr s => s
  | JArr _ => lit "list"
  | JObj _ => lit "dict"
  end.

(** A UTF-8 stdout: every code point but the surrogates. *)
Definition utf8_stdout (t : str) : bool :=
  forallb (fun c => negb ((55296 <=? c) && (c <=? 57343))%N) t.

(** An ASCII stdout. *)
Definition ascii_stdout (t : str) : bool :=
  forallb (fun c => (c <? 128)%N) t.

(** A body of the shape [{"choices": [{"message": {"content": c}}]}]. *)
Definition completion_body (c : json) : json :=
  JObj [(lit "choices", JArr [JObj [(lit "message", JObj [(lit "content", c)])]])].

Definition ok_response (c : json) : http_response :=
  {| status_code := 200; text := []; json_body := Ok (completion_body c) |}.

Definition status_response (code : nat) (body : str) : http_response :=
  {| status_code := code; text := body;
     json_body := Raise (ExternalError (lit "no JSON")) |}.

(** A world with a credential [key], an endpoint [endpoint], a store
    directory [dir] that no process has open, a document [doc] in
    my_data, a loaded collection handle [global], a UTF-8 stdout and no
    failing external call. *)
Definition sample_world (key : option str)
    (endpoint : http_request -> result http_response)
    (dir : option db) (doc : option str) (global : option handle) : world :=
  {| api_key_env := key; chroma_dir := dir;
     doc_my_data := doc; doc_current := None;
     distance := fun _ _ => 0; remote := endpoint; sent := [];
     faults := []; chroma_collection := global;
     store_open := false; chroma_removed := false;
     leftover := fun d => d; stdout_encodes := utf8_stdout |}.

(** The endpoint rejects the credential. *)
Definition placeholder_world : world :=
  sample_world (Some placeholder_key)
    (fun _ => Ok (status_response 401 (lit "Authentication Fails")))
    None None None.

(** The endpoint answers 200 with a completion whose content is [null]. *)
Definition null_completion_world : world :=
  sample_world (Some (lit "sk-test")) (fun _ => Ok (ok_response JNull))
    None None None.

(** The endpoint answers 200 with a completion whose content is the
    number 42. *)
Definition number_completion_world : world :=
  sample_world (Some (lit "sk-test")) (fun _ => Ok (ok_response (JInt 42)))
    None None None.

(** The store holds one chunk from an earlier run. *)
Definition loaded_store_world : world :=
  sample_world (Some (lit "sk-test")) (fun _ => Ok (ok_response (JStr (lit "Hi"))))
    (Some [(collection_name, [(lit "chunk_0", lit "I like hiking.")])])
    None None.

(** The store after a start-up that found nothing to ingest. *)
Definition empty_store_world : world :=
  sample_world (Some (lit "sk-test")) (fun _ => Ok (ok_response (JStr (lit "Hi"))))
    (Some [(collection_name, [])]) None (Some collection_name).

(** The store of [loaded_store_world], served through the global handle. *)
Definition serving_world : world :=
  with_collection (Some collection_name) loaded_store_world.

(** The store of [loaded_store_world] in the running process that has
    opened and serves it. *)
Definition running_world : world :=
  with_store (chroma_dir serving_world) true false serving_world.

(** The store of [loaded_store_world] when the removal of its directory
    fails before anything is deleted. *)
Definition locked_store_world : world :=
  with_faults [Some (ExternalError (lit "Permission denied"))] loaded_store_world.

(** The world [w] when a failing removal leaves a store without
    collections. *)
Definition with_nothing_left (w : world) : world :=
  {| api_key_env := api_key_env w; chroma_dir := chroma_dir w;
     doc_my_data := doc_my_data w; doc_current := doc_current w;
     distance := distance w; remote := remote w; sent := sent w;
     faults := faults w; chroma_collection := chroma_collection w;
     store_open := store_open w; chroma_removed := chroma_removed w;
     leftover := fun _ => []; stdout_encodes := stdout_encodes w |}.

(** A document of 2500 letters and the world that has it in my_data. *)
Definition letters_2500 : str := repeat 97%N 2500.

Definition letters_world : world :=
  sample_world (Some (lit "sk-test")) (fun _ => Ok (ok_response (JStr (lit "Hi"))))
    None (Some letters_2500) None.

Definition letters_chunks : list str :=
  [repeat 97%N 1000; repeat 97%N 1000; repeat 97%N 500].

(** The store holds two chunks and is served through the global handle. *)
Definition two_chunk_world : world :=
  sample_world (Some (lit "sk-test")) (fun _ => Ok (ok_response (JStr (lit "Hi"))))
    (Some [(collection_name, [(lit "chunk_0", lit "I like hiking.");
                              (lit "chunk_1", lit "I live in Oslo.")])])
    None (Some collection_name).

(** The question JSON's ["\ud800"] gives: a lone surrogate. *)
Definition lone_surrogate : str := [55296%N].

(** The ideographic space U+3000. *)
Definition ideographic_space : str := [12288%N].

(** The world [w] with an ASCII stdout. *)
Definition with_ascii_stdout (w : world) : world :=
  {| api_key_env := api_key_env w; chroma_dir := chroma_dir w;
     doc_my_data := doc_my_data w; doc_current := doc_current w;
     distance := distance w; remote := remote w; sent := sent w;
     faults := faults w; chroma_collection := chroma_collection w;
     store_open := store_open w; chroma_removed := chroma_removed w;
     leftover := leftover w; stdout_encodes := ascii_stdout |}.

(** A request body [{"question": q}]. *)
Definition question_body (q : json) : result json :=
  Ok (JObj [(lit "question", q)]).

End Fixtures.
Import Fixtures.

(** ** The introspection routes (health_check, debug_info) *)

Module Introspection.

Record health : Type := {
  status : str;
  api_configured : bool;
  api_key_valid : bool;
  chromadb_connected : bool;
  document_loaded : bool;
  document_exists : bool;
  document_location : str
}.

(** health_check (lines 320-338).  Nothing is caught here: a failing
    [chroma_collection.get()] leaves the handler as an exception. *)
Definition health_check : M health :=
  api_key <- getenv_api_key ;;
  doc_exists_my_data <- doc_exists InMyData ;;
  doc_exists_current <- doc_exists InCurrent ;;
  collection <- get_chroma_collection ;;
  loaded <- match collection with
            | Some c =>
                ids <- coll_get_ids c ;;
                ret (match ids with [] => false | _ :: _ => true end)
            | None => ret false
            end ;;
  ret {| status := lit "healthy";
         api_configured := negb (key_missing api_key);
         api_key_valid :=
           match api_key with
           | Some k => negb (str_eqb k placeholder_key)
           | None => false
           end;
         chromadb_connected :=
           match collection with Some _ => true | None => false end;
         document_loaded := loaded;
         document_exists := doc_exists_my_data || doc_exists_current;
         document_location :=
           if doc_exists_my_data then lit "my_data"
           else if doc_exists_current then lit "current"
           else lit "not_found" |}.

(** What debug_info asks the operating system beyond the world of the
    other routes: the working directory, whether it holds a [.env] file,
    and the byte sizes of the candidate documents. *)
Record probe : Type := {
  getcwd : str;
  env_file_exists : bool;
  getsize : doc_path -> nat
}.

Record debug : Type := {
  api_key_exists : bool;
  api_key_prefix : option str;
  current_directory : str;
  env_file_exists_here : bool;
  chromadb_status : str;
  document_exists_my_data : bool;
  document_exists_current : bool;
  document_size_my_data : nat;
  document_size_current : nat;
  chromadb_path : option str
}.

(** [os.path.join(a, b)] on a POSIX system. *)
Definition path_join (a b : str) : str :=
  if is_prefix (lit "/") b then b
  else
    match rev a with
    | [] => b
    | last :: _ => if (last =? 47)%N then a ++ b else a ++ lit "/" ++ b
    end.

(** [os.getcwd()] and [os.path.getsize(path)] *)
Definition probe_getcwd (os : probe) : M str := external (ret (getcwd os)).

Definition probe_getsize (os : probe) (p : doc_path) : M nat :=
  external (ret (getsize os p)).

(** debug_info (lines 340-365).  Nothing is caught here either. *)
Definition debug_info (os : probe) : M debug :=
  api_key <- getenv_api_key ;;
  doc_exists_my_data <- doc_exists InMyData ;;
  doc_exists_current <- doc_exists InCurrent ;;
  doc_size_my_data <-
    (if doc_exists_my_data then probe_getsize os InMyData else ret 0) ;;
  doc_size_current <-
    (if doc_exists_current then probe_getsize os InCurrent else ret 0) ;;
  collection <- get_chroma_collection ;;
  cwd <- probe_getcwd os ;;
  path <- match collection with
          | Some _ =>
              cwd' <- probe_getcwd os ;;
              ret (Some (path_join cwd' (lit "chroma_db")))
          | None => ret None
          end ;;
  ret {| api_key_exists := negb (key_missing api_key);
         api_key_prefix :=
           match api_key with
           | Some k => if truthy k then Some (slice k 0 10 ++ lit "...") else None
           | None => None
           end;
         current_directory := cwd;
         env_file_exists_here := env_file_exists os;
         chromadb_status :=
           match collection with
           | Some _ => lit "connected"
           | None => lit "disconnected"
           end;
         document_exists_my_data := doc_exists_my_data;
         document_exists_current := doc_exists_current;
         document_size_my_data := doc_size_my_data;
         document_size_current := doc_size_current;
         chromadb_path := path |}.

(** The parts of the world no route writes: the environment, the
    documents, the index's ranking, the endpoint, stdout's encoding and
    what a failing removal leaves. *)
Definition same_surroundings (w w' : world) : Prop :=
  api_key_env w' = api_key_env w /\
  doc_my_data w' = doc_my_data w /\
  doc_current w' = doc_current w /\
  distance w' = distance w /\
  remote w' = remote w /\
  leftover w' = leftover w /\
  stdout_encodes w' = stdout_encodes w.

(** The global handle, when set, designates a collection of the store. *)
Definition handle_designates (w : world) : Prop :=
  forall h, chroma_collection w = Some h -> find_coll h w <> None.

(** A stored record is a chunk: its text is not whitespace-only and is at
    most [chunk_size] long. *)
Definition is_chunk (r : str * str) : Prop :=
  whitespace_only (snd r) = false /\ 0 < length (snd r) <= chunk_size.

(** Only the schedule of failures moved on. *)
Definition only_faults_differ (w w' : world) : Prop :=
  same_surroundings w w' /\
  chroma_dir w' = chroma_dir w /\
  chroma_collection w' = chroma_collection w /\
  sent w' = sent w /\
  store_open w' = store_open w /\
  chroma_removed w' = chroma_removed w.

(** Only the store and the schedule of failures changed, and no
    collection disappeared. *)
Definition store_grows (w w' : world) : Prop :=
  same_surroundings w w' /\
  sent w' = sent w /\
  chroma_collection w' = chroma_collection w /\
  store_open w' = store_open w /\
  chroma_removed w' = chroma_removed w /\
  forall h, find_coll h w <> None -> find_coll h w' <> None.

(** A computation keeps a relation between the world it starts in and
    the world it leaves, whether it returns or raises. *)
Definition preserves {A} (R : world -> world -> Prop) (m : M A) : Prop :=
  forall w, R w (snd (m w)).

End Introspection.
Import Introspection.

(** ** Properties of the text operations *)

Unset Implicit Arguments.

Section TextFacts.

Lemma lstrip_nil_iff (t : str) : lstrip t = [] <-> forallb isspace t = true.
Proof.
  induction t as [|c r IH]; simpl.
  - tauto.
  - destruct (isspace c) eqn:E; simpl.
    + exact IH.
    + split; discriminate.
Qed.

Lemma lstrip_suffix (t : str) : exists p, t = p ++ lstrip t /\ forallb isspace p = true.
Proof.
  induction t as [|c r (p & Hp & Hs)]; simpl.
  - exists []; auto.
  - destruct (isspace c) eqn:E.
    + exists (c :: p); simpl. rewrite E, Hs. split; [congruence | reflexivity].
    + exists []; auto.
Qed.

Lemma forallb_rev {A} (f : A -> bool) (l : list A) :
  forallb f (rev l) = forallb f l.
Proof.
  induction l as [|a l IH]; simpl; [reflexivity|].
  rewrite forallb_app, IH; simpl. rewrite andb_true_r. apply andb_comm.
Qed.

Lemma rstrip_nil_iff (t : str) : rstrip t = [] <-> forallb isspace t = true.
Proof.
  unfold rstrip. rewrite <- (forallb_rev isspace t), <- lstrip_nil_iff.
  split; intro H.
  - apply (f_equal (@rev N)) in H. now rewrite rev_involutive in H.
  - now rewrite H.
Qed.

(** A text strips to nothing exactly when it is empty or all whitespace. *)
Lemma strip_nil_iff (t : str) : strip t = [] <-> forallb isspace t = true.
Proof.
  unfold strip. rewrite rstrip_nil_iff.
  destruct (lstrip_suffix t) as (p & Hp & Hs).
  split; intro H.
  - rewrite Hp, forallb_app, Hs, H. reflexivity.
  - rewrite Hp, forallb_app in H. now apply andb_true_iff in H.
Qed.

Lemma truthy_strip (t : str) :
  truthy (strip t) = negb (forallb isspace t).
Proof.
  destruct (forallb isspace t) eqn:E.
  - apply strip_nil_iff in E. now rewrite E.
  - destruct (strip t) eqn:S; [|reflexivity].
    apply strip_nil_iff in S. congruence.
Qed.

End TextFacts.

(** ** Properties of chunking *)

Section ChunkingFacts.

Variable s : nat.
Hypothesis s_pos : 0 < s.

Lemma slice_block (t : str) (k : nat) :
  slice t (k * s) (k * s + s) = firstn s (skipn (k * s) t).
Proof. unfold slice. f_equal. lia. Qed.

Lemma firstn_plus {A} (a b : nat) (l : list A) :
  firstn (a + b) l = firstn a l ++ firstn b (skipn a l).
Proof.
  revert l; induction a as [|a IH]; intros [|x l]; simpl; try reflexivity.
  - now rewrite firstn_nil.
  - now rewrite IH.
Qed.

Lemma concat_blocks (t : str) (n : nat) :
  concat (map (fun k => firstn s (skipn (k * s) t)) (seq 0 n)) = firstn (n * s) t.
Proof.
  induction n as [|n IH].
  - reflexivity.
  - rewrite seq_S, map_app, concat_app, IH. simpl.
    rewrite app_nil_r, <- firstn_plus. f_equal. lia.
Qed.

Lemma range_len_covers (len : nat) : len <= range_len 0 len s * s.
Proof.
  unfold range_len. destruct (0 <? len) eqn:E.
  - apply Nat.ltb_lt in E.
    pose proof (Nat.mul_succ_div_gt (len - 0 - 1) s ltac:(lia)). nia.
  - apply Nat.ltb_ge in E. lia.
Qed.

Lemma range_len_inside (len k : nat) :
  k < range_len 0 len s -> k * s < len.
Proof.
  unfold range_len. destruct (0 <? len) eqn:E; [|lia].
  apply Nat.ltb_lt in E. intro H.
  pose proof (Nat.Div0.mul_div_le (len - 0 - 1) s).
  assert (k <= (len - 0 - 1) / s) by lia. nia.
Qed.

Lemma range_len_full (len k : nat) :
  S k < range_len 0 len s -> k * s + s < len.
Proof.
  intro H. apply range_len_inside in H. lia.
Qed.

End ChunkingFacts.

Lemma slices_blocks (t : str) (s : nat) :
  0 < s ->
  slices t s =
  Ok (map (fun k => firstn s (skipn (k * s) t)) (seq 0 (range_len 0 (length t) s))).
Proof.
  intro Hs. unfold slices, py_range. destruct s as [|s']; [lia|].
  f_equal. rewrite map_map. apply map_ext. intro k.
  simpl Nat.add at 1. now apply slice_block.
Qed.

Lemma nth_map_lt {A B} (f : A -> B) (l : list A) (d : B) (d' : A) (k : nat) :
  k < length l -> nth k (map f l) d = f (nth k l d').
Proof.
  revert k; induction l as [|a l IH]; simpl; intros [|k] H; try lia; auto.
  apply IH. lia.
Qed.

Example chunk_two_by_two :
  chunk (lit "ab   cde") 2 = Ok [lit "ab"; lit " c"; lit "de"].
Proof. reflexivity. Qed.

Example chunk_zero_size : chunk (lit "ab") 0 = Raise ValueError.
Proof. reflexivity. Qed.

(** C1.  For a text [t] and a chunk size [s > 0] the chunking step cuts
    [t] into the slices [t[k*s : k*s+s]], which are contiguous and do not
    overlap (their concatenation, in order, is [t]); every slice but the
    last has length exactly [s] and none is empty or longer than [s]; the
    result keeps, in order, exactly the slices that are not empty or
    whitespace-only, so its concatenation is [t] with the whitespace-only
    slices removed.  The step reads nothing but [t] and [s]. *)
Theorem chunk_slices_and_filter (t : str) (s : nat) :
  0 < s ->
  exists raw : list str,
    slices t s = Ok raw /\
    concat raw = t /\
    (forall k, k < length raw -> nth k raw [] = firstn s (skipn (k * s) t)) /\
    (forall k, S k < length raw -> length (nth k raw []) = s) /\
    (forall k, k < length raw -> 0 < length (nth k raw []) <= s) /\
    chunk t s = Ok (filter (fun c => negb (whitespace_only c)) raw) /\
    (forall kept, chunk t s = Ok kept ->
       concat kept = concat (filter (fun c => negb (whitespace_only c)) raw)).
Proof.
  intro Hs.
  set (n := range_len 0 (length t) s).
  unfold str in *.
  set (raw := map (fun k => firstn s (skipn (k * s) t)) (seq 0 n)).
  assert (Hraw : slices t s = Ok raw) by now apply slices_blocks.
  assert (Hlen : length raw = n) by (unfold raw; now rewrite length_map, length_seq).
  assert (Hnth : forall k, k < length raw ->
                 nth k raw [] = firstn s (skipn (k * s) t)).
  { intros k Hk. rewrite Hlen in Hk. unfold raw.
    rewrite (nth_map_lt _ _ [] 0) by (now rewrite length_seq).
    now rewrite seq_nth. }
  assert (Hchunk : chunk t s = Ok (filter (fun c => negb (whitespace_only c)) raw)).
  { unfold chunk. rewrite Hraw. f_equal. unfold drop_blank.
    apply filter_ext. intro c. apply truthy_strip. }
  exists raw. unfold str.
  split; [exact Hraw|].
  split; [unfold raw; rewrite (concat_blocks s Hs t n);
          apply firstn_all2, (range_len_covers s Hs)|].
  split; [exact Hnth|].
  split.
  { intros k Hk. rewrite Hnth by lia. rewrite Hlen in Hk.
    pose proof (range_len_full s Hs _ _ Hk) as Hin.
    rewrite length_firstn, length_skipn. lia. }
  split.
  { intros k Hk. rewrite Hnth by assumption. rewrite Hlen in Hk.
    pose proof (range_len_inside s Hs _ _ Hk) as Hin.
    rewrite length_firstn, length_skipn. lia. }
  split; [exact Hchunk|].
  intros kept Hk. rewrite Hchunk in Hk. now inversion Hk.
Qed.

Lemma chunk_slices_and_filter_witness :
  0 < 2 /\
  exists raw : list str,
    slices (lit "ab    cd e") 2 = Ok raw /\
    concat raw = lit "ab    cd e" /\
    (forall k, k < length raw ->
       nth k raw [] = firstn 2 (skipn (k * 2) (lit "ab    cd e"))) /\
    (forall k, S k < length raw -> length (nth k raw []) = 2) /\
    (forall k, k < length raw -> 0 < length (nth k raw []) <= 2) /\
    chunk (lit "ab    cd e") 2 = Ok (filter (fun c => negb (whitespace_only c)) raw) /\
    (forall kept, chunk (lit "ab    cd e") 2 = Ok kept ->
       concat kept = concat (filter (fun c => negb (whitespace_only c)) raw)).
Proof.
  split; [lia | apply (chunk_slices_and_filter (lit "ab    cd e") 2); lia].
Defined.

(** ** Properties of the answer composer *)

Lemma is_prefix_app (p t : str) : is_prefix p (p ++ t) = true.
Proof.
  induction p as [|a p IH]; simpl; [reflexivity|].
  now rewrite N.eqb_refl, IH.
Qed.

Example system_content_without_context :
  system_content (lit "") = persona ++ fallback_clause.
Proof. reflexivity. Qed.

Example system_content_with_context :
  system_content (lit "I like hiking.") = persona ++ lit " Context: I like hiking.".
Proof. reflexivity. Qed.

(** C7.  For every credential, question and context the request carries
    a system message made of the fixed persona framing followed by one
    clause, and the question as the user message.  The clause is the
    only part that depends on the context: for a non-empty context it is
    [" Context: "] followed by the literal context text, for the empty
    context it is the fixed instruction to answer from general knowledge
    while identifying as Andy. *)
Theorem system_message_differs_only_in_clause
    (key : str) (question : json) (context : str) :
  let clause :=
    match context with
    | [] => fallback_clause
    | _ :: _ => lit " Context: " ++ context
    end in
  system_content context = persona ++ clause /\
  messages (completion_request key question context) =
    [(lit "system", JStr (persona ++ clause)); (lit "user", question)] /\
  is_prefix (lit "You are Andy. Answer questions about yourself based on the provided context.")
            persona = true /\
  contains (lit "answer based on your general knowledge") fallback_clause = true /\
  contains (lit "identify yourself as Andy") fallback_clause = true.
Proof.
  assert (E : system_content context = persona ++
              match context with
              | [] => fallback_clause
              | _ :: _ => lit " Context: " ++ context
              end)
    by (destruct context; reflexivity).
  cbv zeta. split; [exact E|].
  split; [unfold completion_request; cbn [messages]; now rewrite E|].
  repeat split; vm_compute; reflexivity.
Qed.

Section AnswerFacts.

Variable str_exn : exn -> str.

(** The answer for an outcome of the remote call (what lines 252-265 map
    it to). *)
Lemma ask_deepseek_configured (question : json) (context key : str) (w : world) :
  api_key_env w = Some key ->
  truthy key = true ->
  ask_deepseek str_exn question context w =
  (Ok match remote w (completion_request key question context) with
      | Raise e => JStr (lit "Network Error: " ++ str_exn e)
      | Ok r =>
          if status_code r =? 200 then
            match completion_text r with
            | Ok c => c
            | Raise e => JStr (lit "Network Error: " ++ str_exn e)
            end
          else JStr (error_msg r)
      end,
   with_sent (sent w ++ [completion_request key question context]) w).
Proof.
  intros Hk Ht. unfold ask_deepseek, bind, getenv_api_key.
  rewrite Hk, Ht. cbn [negb]. unfold try_except, bind, requests_post.
  destruct (remote w (completion_request key question context)) as [r|e].
  - destruct (status_code r =? 200).
    + unfold lift. destruct (completion_text r); reflexivity.
    + reflexivity.
  - reflexivity.
Qed.

Lemma ask_deepseek_unconfigured (question : json) (context : str) (w : world) :
  key_missing (api_key_env w) = true ->
  ask_deepseek str_exn question context w = (Ok (JStr config_error), w).
Proof.
  intro H. unfold ask_deepseek, bind, getenv_api_key.
  destruct (api_key_env w) as [k|]; [|reflexivity].
  simpl in H. now rewrite H.
Qed.

Lemma ask_deepseek_total (question : json) (context : str) (w : world) :
  exists answer w',
    ask_deepseek str_exn question context w = (Ok answer, w') /\
    stdout_encodes w' = stdout_encodes w.
Proof.
  destruct (key_missing (api_key_env w)) eqn:E.
  - rewrite ask_deepseek_unconfigured by exact E. eauto.
  - destruct (api_key_env w) as [k|] eqn:Ek; [|discriminate].
    simpl in E. apply negb_false_iff in E.
    rewrite (ask_deepseek_configured question context k w Ek E). eauto.
Qed.

Lemma error_msg_prefix (r : http_response) :
  is_prefix (lit "API Error: Status " ++ str_of_nat (status_code r)) (error_msg r) = true.
Proof.
  unfold error_msg.
  destruct (status_code r =? 401); [apply is_prefix_app|].
  destruct (status_code r =? 429); apply is_prefix_app.
Qed.

End AnswerFacts.

Example completion_text_well_formed (c : json) :
  completion_text (ok_response c) = Ok c.
Proof. reflexivity. Qed.

Example completion_text_no_choices :
  completion_text {| status_code := 200; text := lit "{}"; json_body := Ok (JObj []) |}
  = Raise (KeyError (JStr (lit "choices"))).
Proof. reflexivity. Qed.

(** The chain of line 253 yields exactly the content entry of a body of
    the expected shape. *)
Lemma completion_text_iff (r : http_response) (c : json) :
  completion_text r = Ok c <->
  exists top choice others message,
    json_body r = Ok (JObj top) /\
    lookup (lit "choices") top = Some (JArr (JObj choice :: others)) /\
    lookup (lit "message") choice = Some (JObj message) /\
    lookup (lit "content") message = Some c.
Proof.
  unfold completion_text, getitem, getitem0. split.
  - destruct (json_body r) as [[| | | | | |top]|]; try discriminate.
    destruct (lookup (lit "choices") top) as [[| | | |s|items|o]|] eqn:E1;
      try discriminate.
    + destruct s; discriminate.
    + destruct items as [|[| | | | | |choice] others]; try discriminate.
      destruct (lookup (lit "message") choice) as [[| | | | | |message]|] eqn:E2;
        try discriminate.
      destruct (lookup (lit "content") message) as [x|] eqn:E3; [|discriminate].
      intro H. injection H as <-. exists top, choice, others, message. auto.
  - intros (top & choice & others & message & -> & -> & -> & ->). reflexivity.
Qed.

(** C3 as the spec states it fails: on a 200 response whose completion
    content is [null], or a number, the answer operation returns [None],
    or the number, and not a text. *)
Lemma ask_deepseek_answer_not_text :
  fst (ask_deepseek class_name (JStr (lit "Who are you?")) [] null_completion_world)
    = Ok JNull /\
  fst (ask_deepseek class_name (JStr (lit "Who are you?")) [] number_completion_world)
    = Ok (JInt 42).
Proof. split; vm_compute; reflexivity. Qed.

(** C3, amended.  The answer operation never raises: in every world it
    returns a value.  Without a credential that value is the
    configuration message.  With one, a transport failure (a timeout
    included) gives ["Network Error: "] and the failure's text.  A 200
    response gives the entry found at [choices[0].message.content] of
    its body, as it is: a text when the entry is a text, but also
    [None], a number, a list or an object when the endpoint sends one.
    A 200 body that does not parse or lacks that path gives
    ["Network Error: "] and the error's text (a [KeyError] for a missing
    ["choices"], an [IndexError] for an empty list of choices).  Any
    other status gives a message that starts with
    ["API Error: Status <code>"] and names the invalid key for 401, the
    rate limit for 429 and, for the rest, ends with the response
    text. *)
Theorem ask_deepseek_never_raises
    (str_exn : exn -> str) (question : json) (context : str) (w : world) :
  exists answer : json,
    fst (ask_deepseek str_exn question context w) = Ok answer /\
    match api_key_env w with
    | None => answer = JStr config_error
    | Some key =>
        if truthy key then
          match remote w (completion_request key question context) with
          | Raise e => answer = JStr (lit "Network Error: " ++ str_exn e)
          | Ok r =>
              if status_code r =? 200 then
                match json_body r with
                | Raise e => answer = JStr (lit "Network Error: " ++ str_exn e)
                | Ok body =>
                    (forall top choice others message c,
                       body = JObj top ->
                       lookup (lit "choices") top = Some (JArr (JObj choice :: others)) ->
                       lookup (lit "message") choice = Some (JObj message) ->
                       lookup (lit "content") message = Some c ->
                       answer = c) /\
                    (forall s, answer = JStr s ->
                       is_prefix (lit "Network Error: ") s = false ->
                       exists top choice others message,
                         body = JObj top /\
                         lookup (lit "choices") top
                           = Some (JArr (JObj choice :: others)) /\
                         lookup (lit "message") choice = Some (JObj message) /\
                         lookup (lit "content") message = Some (JStr s)) /\
                    ((forall top choice others message c,
                        body = JObj top ->
                        lookup (lit "choices") top = Some (JArr (JObj choice :: others)) ->
                        lookup (lit "message") choice = Some (JObj message) ->
                        lookup (lit "content") message = Some c -> False) ->
                     exists e, answer = JStr (lit "Network Error: " ++ str_exn e)) /\
                    (forall top, body = JObj top ->
                       lookup (lit "choices") top = None ->
                       answer = JStr (lit "Network Error: "
                                      ++ str_exn (KeyError (JStr (lit "choices"))))) /\
                    (forall top, body = JObj top ->
                       lookup (lit "choices") top = Some (JArr []) ->
                       answer = JStr (lit "Network Error: " ++ str_exn IndexError))
                end
              else
                exists msg : str,
                  answer = JStr msg /\
                  is_prefix (lit "API Error: Status " ++ str_of_nat (status_code r)) msg
                    = true /\
                  if status_code r =? 401 then
                    contains (lit "Invalid API key") msg = true
                  else if status_code r =? 429 then
                    contains (lit "Rate limit exceeded") msg = true
                  else
                    msg = lit "API Error: Status " ++ str_of_nat (status_code r)
                          ++ lit " - " ++ text r
          end
        else answer = JStr config_error
    end.
Proof.
  destruct (api_key_env w) as [key|] eqn:Ek.
  - destruct (truthy key) eqn:Et.
    + rewrite (ask_deepseek_configured str_exn question context key w Ek Et). cbn [fst].
      eexists; split; [reflexivity|].
      destruct (remote w (completion_request key question context)) as [r|e];
        [|reflexivity].
      destruct (status_code r =? 200).
      * destruct (json_body r) as [body|e] eqn:Eb.
        2:{ unfold completion_text. now rewrite Eb. }
        split; [|split; [|split; [|split]]].
        -- intros top choice others message c -> H1 H2 H3.
           assert (Hc : completion_text r = Ok c)
             by (apply completion_text_iff; eauto 8).
           now rewrite Hc.
        -- intros s Hs Hp.
           destruct (completion_text r) as [c|e] eqn:Ec.
           ++ subst c. apply completion_text_iff in Ec.
              destruct Ec as (top & choice & others & message & Hb & H1 & H2 & H3).
              rewrite Eb in Hb. injection Hb as ->. eauto 8.
           ++ assert (Hs' : s = lit "Network Error: " ++ str_exn e) by congruence.
              rewrite Hs', is_prefix_app in Hp. discriminate.
        -- intro Hno. destruct (completion_text r) as [c|e] eqn:Ec; [|eauto].
           apply completion_text_iff in Ec.
           destruct Ec as (top & choice & others & message & Hb & H1 & H2 & H3).
           rewrite Eb in Hb. injection Hb as ->.
           destruct (Hno top choice others message c eq_refl H1 H2 H3).
        -- intros top -> Hn. unfold completion_text, getitem. now rewrite Eb, Hn.
        -- intros top -> Hn. unfold completion_text, getitem, getitem0.
           now rewrite Eb, Hn.
      * exists (error_msg r). split; [reflexivity|].
        split; [apply error_msg_prefix|].
        unfold error_msg.
        destruct (status_code r =? 401) eqn:E401.
        -- apply Nat.eqb_eq in E401. rewrite E401. vm_compute. reflexivity.
        -- destruct (status_code r =? 429) eqn:E429; [|reflexivity].
           apply Nat.eqb_eq in E429. rewrite E429. vm_compute. reflexivity.
    + rewrite ask_deepseek_unconfigured by (rewrite Ek; simpl; now rewrite Et).
      eexists; split; reflexivity.
  - rewrite ask_deepseek_unconfigured by now rewrite Ek.
    eexists; split; reflexivity.
Qed.

(** C8 (the code departs from the claim).  With the credential still at
    the placeholder value, load_environment reports the configuration as
    unusable, yet the answer operation posts the completion request with
    that credential and returns what the endpoint's 401 maps to, not the
    configuration message. *)
Theorem placeholder_key_is_sent :
  fst (load_environment placeholder_world) = Ok false /\
  fst (ask_deepseek class_name (JStr (lit "Who are you?")) [] placeholder_world)
    = Ok (JStr (lit "API Error: Status 401 - Invalid API key. Please check your DEEPSEEK_API_KEY in .env file.")) /\
  map authorization
      (sent (snd (ask_deepseek class_name (JStr (lit "Who are you?")) [] placeholder_world)))
    = [lit "Bearer your_deepseek_api_key_here"].
Proof. repeat split; vm_compute; reflexivity. Qed.

(** ** Properties of the store model *)

Lemma str_eqb_refl (a : str) : str_eqb a a = true.
Proof. induction a as [|x a IH]; simpl; [reflexivity|]. now rewrite N.eqb_refl. Qed.

Lemma str_eqb_eq (a b : str) : str_eqb a b = true <-> a = b.
Proof.
  split; [|intros ->; apply str_eqb_refl].
  revert b; induction a as [|x a IH]; intros [|y b]; simpl; try discriminate; auto.
  intro H. apply andb_true_iff in H. destruct H as [H1 H2].
  apply N.eqb_eq in H1. f_equal; auto.
Qed.

Lemma lit_inj (a b : string) : lit a = lit b -> a = b.
Proof.
  unfold lit. intro H.
  assert (E : list_ascii_of_string a = list_ascii_of_string b).
  { revert H. generalize (list_ascii_of_string a) (list_ascii_of_string b).
    induction l as [|x l IH]; intros [|y l']; simpl; try discriminate; auto.
    intro H. injection H as H1 H2. f_equal; auto.
    rewrite <- (ascii_N_embedding x), <- (ascii_N_embedding y). now rewrite H1. }
  rewrite <- (string_of_list_ascii_of_string a), <- (string_of_list_ascii_of_string b).
  now rewrite E.
Qed.

Lemma str_of_nat_inj (a b : nat) : str_of_nat a = str_of_nat b -> a = b.
Proof.
  unfold str_of_nat. intro H. apply lit_inj in H.
  apply (f_equal NilEmpty.uint_of_string) in H.
  rewrite !NilEmpty.usu in H. injection H as H.
  now apply DecimalNat.Unsigned.to_uint_inj.
Qed.

Lemma has_dup_false_iff (ids : list str) : has_dup ids = false <-> NoDup ids.
Proof.
  induction ids as [|i r IH]; simpl.
  - split; [constructor | reflexivity].
  - rewrite orb_false_iff, IH. split.
    + intros [H1 H2]. constructor; [|exact H2].
      intro Hin. assert (existsb (str_eqb i) r = true); [|congruence].
      apply existsb_exists. exists i. split; [exact Hin | apply str_eqb_refl].
    + intro H. inversion H as [|? ? Hn Hd]; subst. split; [|exact Hd].
      destruct (existsb (str_eqb i) r) eqn:E; [|reflexivity].
      apply existsb_exists in E. destruct E as (j & Hj & Ej).
      apply str_eqb_eq in Ej. subst j. contradiction.
Qed.

Lemma chunk_ids_length (chunks : list str) :
  length (chunk_ids chunks) = length chunks.
Proof. unfold chunk_ids. now rewrite length_map, length_seq. Qed.

Lemma chunk_ids_nth (chunks : list str) (i : nat) :
  i < length chunks ->
  nth i (chunk_ids chunks) [] = lit "chunk_" ++ str_of_nat i.
Proof.
  intro H. unfold chunk_ids, str in *.
  rewrite (nth_map_lt _ _ [] 0) by now rewrite length_seq.
  now rewrite seq_nth.
Qed.

Lemma chunk_ids_nodup (chunks : list str) : has_dup (chunk_ids chunks) = false.
Proof.
  apply has_dup_false_iff. unfold chunk_ids.
  apply Finite.Injective_map_NoDup; [|apply seq_NoDup].
  intros a b H. apply app_inv_head in H. now apply str_of_nat_inj.
Qed.

Lemma bind_eq {A B} (m : M A) (k : A -> M B) (w : world) :
  bind m k w =
  match m w with
  | (Ok a, w') => k a w'
  | (Raise e, w') => (Raise e, w')
  end.
Proof. reflexivity. Qed.

Lemma bind_ok {A B} (m : M A) (k : A -> M B) (w : world) (b : B) (w2 : world) :
  bind m k w = (Ok b, w2) ->
  exists a w1, m w = (Ok a, w1) /\ k a w1 = (Ok b, w2).
Proof.
  unfold bind. destruct (m w) as [[a|e] w1]; [eauto | discriminate].
Qed.

Lemma bind_raise {A B} (m : M A) (k : A -> M B) (w : world) (e : exn) (w2 : world) :
  bind m k w = (Raise e, w2) ->
  m w = (Raise e, w2) \/ exists a w1, m w = (Ok a, w1) /\ k a w1 = (Raise e, w2).
Proof.
  unfold bind. destruct (m w) as [[a|e'] w1]; [eauto|].
  intro H. injection H as -> ->. now left.
Qed.

Lemma try_ok {A} (body : M A) (handler : exn -> M A) (w : world) (a : A) (w' : world) :
  try_except body handler w = (Ok a, w') ->
  body w = (Ok a, w') \/
  exists e w1, body w = (Raise e, w1) /\ handler e w1 = (Ok a, w').
Proof.
  unfold try_except. destruct (body w) as [[x|e] w1]; [intro H; left; exact H | eauto].
Qed.

Lemma external_quiet {A} (op : M A) (w : world) :
  faults w = [] -> external op w = op w.
Proof. intro H. unfold external. now rewrite H. Qed.

Lemma with_dir_same (w : world) : with_dir (chroma_dir w) w = w.
Proof. now destruct w. Qed.

Lemma find_replace (h : handle) (c c0 : coll) (d : db) :
  lookup h d = Some c0 -> lookup h (replace h c d) = Some c.
Proof.
  induction d as [|[n x] d IH]; simpl; [discriminate|].
  destruct (str_eqb h n) eqn:E; simpl; rewrite E; auto.
Qed.

Lemma filter_all {A} (f : A -> bool) (l : list A) :
  (forall x, f x = true) -> filter f l = l.
Proof.
  intro H. induction l as [|a l IH]; simpl; [reflexivity|]. now rewrite H, IH.
Qed.

Section StoreCalls.

Variables (h : handle) (w : world).

Lemma find_coll_with_faults (f : list (option exn)) :
  find_coll h (with_faults f w) = find_coll h w.
Proof. reflexivity. Qed.

Lemma coll_get_ids_quiet (c : coll) :
  faults w = [] -> find_coll h w = Some c ->
  coll_get_ids h w = (Ok (map fst c), w).
Proof.
  intros Hf Hc. unfold coll_get_ids. rewrite external_quiet by exact Hf.
  now rewrite Hc.
Qed.

(** Whatever the failures, reading the ids leaves the store as it is. *)
Lemma coll_get_ids_cases (c : coll) :
  find_coll h w = Some c ->
  exists w', chroma_dir w' = chroma_dir w /\
    (coll_get_ids h w = (Ok (map fst c), w') \/
     exists e, coll_get_ids h w = (Raise e, w')).
Proof.
  intro Hc. unfold coll_get_ids, external.
  destruct (faults w) as [|[e|] rest].
  - exists w. split; [reflexivity|]. left. now rewrite Hc.
  - exists (with_faults rest w). split; [reflexivity|]. right. now exists e.
  - exists (with_faults rest w). split; [reflexivity|]. left.
    now rewrite find_coll_with_faults, Hc.
Qed.

Lemma coll_add_quiet (d : db) (documents ids : list str) :
  faults w = [] -> chroma_dir w = Some d -> lookup h d = Some [] ->
  ids <> [] -> length ids = length documents -> has_dup ids = false ->
  coll_add h documents ids w =
  (Ok tt, with_dir (Some (replace h (combine ids documents) d)) w).
Proof.
  intros Hf Hd Hc Hne Hlen Hdup. unfold coll_add.
  rewrite external_quiet by exact Hf. unfold find_coll. rewrite Hd, Hc.
  rewrite Hlen, Nat.eqb_refl, Hdup.
  destruct ids as [|i ids']; [contradiction|]. cbn [orb negb app].
  rewrite filter_all by reflexivity. reflexivity.
Qed.

Lemma coll_add_empty_batch :
  exists e w', coll_add h [] [] w = (Raise e, w') /\ chroma_dir w' = chroma_dir w.
Proof.
  unfold coll_add, external, find_coll.
  destruct (faults w) as [|[e|] rest].
  - destruct (chroma_dir w) as [d|] eqn:Ed; [destruct (lookup h d)|]; cbn;
      do 2 eexists; (split; [reflexivity|]); congruence.
  - do 2 eexists; split; reflexivity.
  - cbn [chroma_dir with_faults].
    destruct (chroma_dir w) as [d|] eqn:Ed; [destruct (lookup h d)|]; cbn;
      do 2 eexists; (split; [reflexivity|]); cbn; congruence.
Qed.

End StoreCalls.

(** ** Properties of the guarded insertion *)

Lemma replace_same (h : handle) (c : coll) (d : db) :
  lookup h d = Some c -> replace h c d = d.
Proof.
  induction d as [|[n x] d IH]; simpl; [reflexivity|].
  destruct (str_eqb h n) eqn:E.
  - intro H. now injection H as ->.
  - intro H. now rewrite IH.
Qed.

Lemma bulk_insert_total (h : handle) (chunks : list str) (w : world) :
  exists w', bulk_insert h chunks w = (Ok tt, w').
Proof.
  unfold bulk_insert, try_except.
  set (body := bind _ _).
  destruct (body w) as [[u|e] w1]; [destruct u|]; eexists; reflexivity.
Qed.

Lemma bulk_insert_loaded (h : handle) (chunks : list str) (w : world) (c : coll) :
  find_coll h w = Some c -> c <> [] ->
  exists w', bulk_insert h chunks w = (Ok tt, w') /\ chroma_dir w' = chroma_dir w.
Proof.
  intros Hc Hne.
  destruct (coll_get_ids_cases h w c Hc) as (w1 & Hd & [Hg | [e Hg]]);
    exists w1; (split; [|exact Hd]); unfold bulk_insert, try_except, bind; rewrite Hg.
  - destruct c as [|r c]; [contradiction|]. reflexivity.
  - reflexivity.
Qed.

Lemma bulk_insert_loaded_quiet (h : handle) (chunks : list str) (w : world) (c : coll) :
  faults w = [] -> find_coll h w = Some c -> c <> [] ->
  bulk_insert h chunks w = (Ok tt, w).
Proof.
  intros Hf Hc Hne. unfold bulk_insert, try_except, bind.
  rewrite (coll_get_ids_quiet h w c Hf Hc).
  destruct c as [|r c]; [contradiction|]. reflexivity.
Qed.

Lemma bulk_insert_empty_quiet (h : handle) (chunks : list str) (w : world) (d : db) :
  faults w = [] -> chroma_dir w = Some d -> lookup h d = Some [] ->
  bulk_insert h chunks w =
  (Ok tt, with_dir (Some (replace h (combine (chunk_ids chunks) chunks) d)) w).
Proof.
  intros Hf Hd Hc.
  assert (Hfind : find_coll h w = Some []) by (unfold find_coll; now rewrite Hd).
  unfold bulk_insert, try_except, bind.
  rewrite (coll_get_ids_quiet h w [] Hf Hfind). cbn [map].
  destruct chunks as [|x chunks].
  - cbn [chunk_ids length seq map combine].
    rewrite (replace_same _ _ _ Hc), <- Hd, with_dir_same.
    unfold coll_add. rewrite external_quiet by exact Hf.
    rewrite Hfind, Hd. reflexivity.
  - rewrite (coll_add_quiet h w d); auto.
    + discriminate.
    + apply chunk_ids_length.
    + apply chunk_ids_nodup.
Qed.

(** C5.  The guarded insertion never raises.  When the collection holds
    at least one chunk it leaves the store unchanged, whatever fails.
    When the collection is empty and the store calls succeed, the
    collection afterwards holds exactly the given chunks, chunk [i]
    under the id [chunk_<i>], and running the insertion again changes
    nothing. *)
Theorem bulk_insert_only_when_empty (h : handle) (chunks : list str) (w : world) :
  exists w' : world,
    bulk_insert h chunks w = (Ok tt, w') /\
    (forall c, find_coll h w = Some c -> c <> [] -> chroma_dir w' = chroma_dir w) /\
    (faults w = [] -> find_coll h w = Some [] ->
       find_coll h w' = Some (combine (chunk_ids chunks) chunks) /\
       bulk_insert h chunks w' = (Ok tt, w')) /\
    length (chunk_ids chunks) = length chunks /\
    (forall i, i < length chunks ->
       nth i (chunk_ids chunks) [] = lit "chunk_" ++ str_of_nat i).
Proof.
  destruct (bulk_insert_total h chunks w) as [w' Hw']. exists w'.
  split; [exact Hw'|]. split; [|split; [|split]].
  - intros c Hc Hne.
    destruct (bulk_insert_loaded h chunks w c Hc Hne) as (w1 & H1 & Hd).
    rewrite Hw' in H1. now injection H1 as ->.
  - intros Hf Hfind. pose proof Hfind as Hc. unfold find_coll in Hc.
    destruct (chroma_dir w) as [d|] eqn:Hd; [|discriminate].
    pose proof (bulk_insert_empty_quiet h chunks w d Hf Hd Hc) as Hrun.
    destruct chunks as [|x chunks].
    + cbn [chunk_ids length seq map combine] in *.
      rewrite (replace_same _ _ _ Hc), <- Hd, with_dir_same in Hrun.
      rewrite Hrun in Hw'. injection Hw' as <-. now split.
    + rewrite Hrun in Hw'. injection Hw' as <-.
      set (stored := combine (chunk_ids (x :: chunks)) (x :: chunks)) in *.
      assert (Hfind1 : find_coll h (with_dir (Some (replace h stored d)) w) = Some stored).
      { unfold find_coll. cbn [chroma_dir with_dir]. now apply find_replace with (c0 := []). }
      split; [exact Hfind1|].
      apply bulk_insert_loaded_quiet with (c := stored); auto. discriminate.
  - apply chunk_ids_length.
  - apply chunk_ids_nth.
Qed.

(** ** Properties of the store set-up *)

Lemma lookup_app_fresh {A} (n : str) (c : A) (d : list (str * A)) :
  lookup n d = None -> lookup n (d ++ [(n, c)]) = Some c.
Proof.
  induction d as [|[m x] d IH]; simpl.
  - now rewrite str_eqb_refl.
  - destruct (str_eqb n m); [discriminate | exact IH].
Qed.

Lemma lookup_app_keeps {A} (n h : str) (c x : A) (d : list (str * A)) :
  lookup h d = Some c -> lookup h (d ++ [(n, x)]) = Some c.
Proof.
  induction d as [|[m y] d IH]; simpl; [discriminate|].
  destruct (str_eqb h m); [auto | exact IH].
Qed.

Lemma try_except_total {A} (body : M A) (handler : exn -> M A) :
  (forall e w, exists a w', handler e w = (Ok a, w')) ->
  forall w, exists a w', try_except body handler w = (Ok a, w').
Proof.
  intros Hh w. unfold try_except.
  destruct (body w) as [[a|e] w1]; [eauto | apply Hh].
Qed.

Lemma setup_chromadb_total (w : world) :
  exists r w', setup_chromadb w = (Ok r, w').
Proof.
  unfold setup_chromadb. apply try_except_total.
  intros _ w1. apply try_except_total.
  intros _ w2. unfold ret. eauto.
Qed.

Ltac run_setup :=
  unfold setup_chromadb, try_except, bind, chroma_path_exists, rmtree, removed,
    partly_removed, PersistentClient, list_collections, get_collection,
    create_collection, external, find_coll, ret;
  cbn -[collection_name lookup].

(** The first time a process opens the store, with no failing call: the
    directory is removed and a fresh, empty collection is the only thing
    in the new store. *)
Lemma setup_chromadb_quiet (w : world) :
  faults w = [] -> store_open w = false ->
  setup_chromadb w =
  (Ok (Some collection_name), with_store (Some [(collection_name, [])]) true false w).
Proof.
  intros Hf Ho. destruct w as [k d m c ds rm sn f g o r lf so].
  cbn in Hf, Ho. subst f o.
  destruct d as [d|]; [destruct r|]; reflexivity.
Qed.

(** In a process that has the store open the collections it holds are
    served again, with their chunks. *)
Lemma setup_chromadb_reopen (w : world) (d : db) :
  faults w = [] -> store_open w = true -> chroma_dir w = Some d ->
  setup_chromadb w =
  (Ok (Some collection_name),
   with_store (Some (match lookup collection_name d with
                     | Some _ => d
                     | None => d ++ [(collection_name, [])]
                     end)) true true w).
Proof.
  intros Hf Ho Hd. destruct w as [k d0 m c ds rm sn f g o r lf so].
  cbn in Hf, Ho, Hd. subst f o d0.
  destruct r; run_setup;
    destruct (lookup collection_name d) eqn:E;
    cbn -[collection_name lookup]; rewrite ?E; reflexivity.
Qed.

(** When the removal fails, what it left of the store is read. *)
Lemma setup_chromadb_after_failed_removal (w : world) (e : exn) (d : db) :
  faults w = [Some e] -> chroma_dir w = Some d -> chroma_removed w = false ->
  setup_chromadb w =
  (Ok (Some collection_name),
   with_store (Some (match lookup collection_name (leftover w d) with
                     | Some _ => leftover w d
                     | None => leftover w d ++ [(collection_name, [])]
                     end)) true false (with_faults [] w)).
Proof.
  intros Hf Hd Hr. destruct w as [k d0 m c ds rm sn f g o r lf so].
  cbn in Hf, Hd, Hr. subst f d0 r.
  run_setup.
  destruct (lookup collection_name (lf d)) eqn:E;
    cbn -[collection_name lookup]; rewrite ?E; reflexivity.
Qed.

(** Two failed attempts to open the store give the sentinel. *)
Lemma setup_chromadb_unavailable (w : world) (e1 e2 : exn) (rest : list (option exn)) :
  chroma_dir w = None -> faults w = Some e1 :: Some e2 :: rest ->
  setup_chromadb w = (Ok None, with_faults rest w).
Proof.
  intros Hd Hf. destruct w as [k d0 m c ds rm sn f g o r lf so].
  cbn in Hf, Hd. subst f d0.
  reflexivity.
Qed.

Lemma lookup_after_setup (d : db) :
  lookup collection_name
    (match lookup collection_name d with
     | Some _ => d
     | None => d ++ [(collection_name, [])]
     end)
  = Some (match lookup collection_name d with Some c => c | None => [] end).
Proof.
  destruct (lookup collection_name d) eqn:E; [exact E|].
  now apply lookup_app_fresh.
Qed.

(** C4 as the spec states it fails: a collection that holds a chunk when
    the service starts is empty after the set-up, although no call
    failed. *)
Lemma setup_chromadb_drops_stored_chunks :
  faults loaded_store_world = [] /\
  store_open loaded_store_world = false /\
  find_coll collection_name loaded_store_world
    = Some [(lit "chunk_0", lit "I like hiking.")] /\
  fst (setup_chromadb loaded_store_world) = Ok (Some collection_name) /\
  find_coll collection_name (snd (setup_chromadb loaded_store_world)) = Some [].
Proof. repeat split; vm_compute; reflexivity. Qed.

(** C4, amended.  The set-up never raises.  It first removes the store
    directory when there is one.  In a process that has not opened the
    store (the start of the service), when no call fails the result is a
    handle on a fresh, empty collection, whatever was stored before.  In
    a process that has the store open (a reset of the running service),
    when no call fails the store the process holds is served again: the
    collection found there is attached with its chunks, and an empty one
    is created only when none is found.  When the removal fails, what it
    left of the store is read in the same way.  When the store cannot be
    opened, neither at first nor in the fallback, the result is the
    sentinel [None]. *)
Theorem setup_chromadb_recreates_store (w : world) :
  exists (r : option handle) (w' : world),
    setup_chromadb w = (Ok r, w') /\
    (faults w = [] -> store_open w = false ->
       r = Some collection_name /\ find_coll collection_name w' = Some [] /\
       store_open w' = true) /\
    (forall d, faults w = [] -> store_open w = true -> chroma_dir w = Some d ->
       r = Some collection_name /\
       find_coll collection_name w'
         = Some (match lookup collection_name d with Some c => c | None => [] end) /\
       forall h c, lookup h d = Some c -> find_coll h w' = Some c) /\
    (forall e d, faults w = [Some e] -> chroma_dir w = Some d ->
       chroma_removed w = false ->
       r = Some collection_name /\
       find_coll collection_name w'
         = Some (match lookup collection_name (leftover w d) with
                 | Some c => c
                 | None => []
                 end)) /\
    (forall e1 e2 rest, chroma_dir w = None ->
       faults w = Some e1 :: Some e2 :: rest -> r = None).
Proof.
  destruct (setup_chromadb_total w) as (r & w' & Hrun).
  exists r, w'. split; [exact Hrun|]. split; [|split; [|split]].
  - intros Hf Ho. rewrite (setup_chromadb_quiet w Hf Ho) in Hrun.
    injection Hrun as <- <-. split; [reflexivity|]. split; [|reflexivity].
    unfold find_coll. cbn [chroma_dir with_store lookup].
    now rewrite str_eqb_refl.
  - intros d Hf Ho Hd. rewrite (setup_chromadb_reopen w d Hf Ho Hd) in Hrun.
    injection Hrun as <- <-. split; [reflexivity|].
    unfold find_coll. cbn [chroma_dir with_store]. split.
    + apply lookup_after_setup.
    + intros h c Hh. destruct (lookup collection_name d) eqn:E; [exact Hh|].
      now apply lookup_app_keeps.
  - intros e d Hf Hd Hr.
    rewrite (setup_chromadb_after_failed_removal w e d Hf Hd Hr) in Hrun.
    injection Hrun as <- <-. split; [reflexivity|].
    unfold find_coll. cbn [chroma_dir with_store]. apply lookup_after_setup.
  - intros e1 e2 rest Hd Hf.
    rewrite (setup_chromadb_unavailable w e1 e2 rest Hd Hf) in Hrun.
    now injection Hrun as <- _.
Qed.

(** ** Properties of the ingestion *)

Lemma whitespace_only_concat (l : list str) :
  whitespace_only (concat l) = forallb whitespace_only l.
Proof.
  unfold whitespace_only. induction l as [|a l IH]; simpl; [reflexivity|].
  now rewrite forallb_app, IH.
Qed.

Lemma slices_concat (t : str) (s : nat) (raw : list str) :
  0 < s -> slices t s = Ok raw -> concat raw = t.
Proof.
  intros Hs H. rewrite (slices_blocks t s Hs) in H. injection H as <-.
  rewrite (concat_blocks s Hs). apply firstn_all2, (range_len_covers s Hs).
Qed.

Lemma chunk_of_slices (t : str) (s : nat) (raw : list str) :
  slices t s = Ok raw ->
  chunk t s = Ok (filter (fun c => negb (whitespace_only c)) raw).
Proof.
  intro H. unfold chunk. rewrite H. f_equal. unfold drop_blank.
  apply filter_ext. intro c. apply truthy_strip.
Qed.

(** A text that strips to nothing has no chunk. *)
Lemma chunk_blank (t : str) (s : nat) (chunks : list str) :
  0 < s -> chunk t s = Ok chunks -> truthy (strip t) = false -> chunks = [].
Proof.
  intros Hs Hc Hb. rewrite truthy_strip in Hb. apply negb_false_iff in Hb.
  pose proof (slices_blocks t s Hs) as Hraw.
  rewrite (chunk_of_slices t s _ Hraw) in Hc. injection Hc as <-.
  pose proof (slices_concat t s _ Hs Hraw) as Hcat.
  fold (whitespace_only t) in Hb. rewrite <- Hcat, whitespace_only_concat in Hb.
  revert Hb. generalize (map (fun k => firstn s (skipn (k * s) t))
                             (seq 0 (range_len 0 (length t) s))).
  induction l as [|a l IH]; simpl; [reflexivity|].
  intro H. apply andb_true_iff in H. destruct H as [Ha Hl].
  rewrite Ha. simpl. now apply IH.
Qed.

Lemma locate_document_source (w : world) :
  exists p, locate_document w = (Ok p, w) /\
    match p with
    | Some path => doc_at path w = source_document w /\ source_document w <> None
    | None => source_document w = None
    end.
Proof.
  unfold locate_document, bind, doc_exists, source_document, doc_at, ret.
  destruct (doc_my_data w) as [c|].
  - exists (Some InMyData). repeat split. discriminate.
  - destruct (doc_current w) as [c|].
    + exists (Some InCurrent). repeat split. discriminate.
    + exists None. split; reflexivity.
Qed.

Lemma load_document_quiet (h : handle) (w : world) (d : db) (content : str)
    (chunks : list str) :
  faults w = [] -> chroma_dir w = Some d -> lookup h d = Some [] ->
  source_document w = Some content -> chunk content chunk_size = Ok chunks ->
  load_document_to_chroma h w =
  (Ok tt, with_dir (Some (replace h (combine (chunk_ids chunks) chunks) d)) w).
Proof.
  intros Hf Hd Hc Hsrc Hchunk.
  unfold load_document_to_chroma, try_except, bind.
  destruct (locate_document_source w) as ([p|] & -> & Hp).
  - destruct Hp as [Hp _]. rewrite Hsrc in Hp.
    unfold read_document. rewrite external_quiet by exact Hf. rewrite Hp.
    destruct (truthy (strip content)) eqn:Hb; cbn [negb].
    + unfold lift. rewrite Hchunk.
      now rewrite (bulk_insert_empty_quiet h chunks w d Hf Hd Hc).
    + rewrite (chunk_blank content chunk_size chunks) by (auto; unfold chunk_size; lia).
      cbn [chunk_ids length seq map combine].
      now rewrite (replace_same _ _ _ Hc), <- Hd, with_dir_same.
  - congruence.
Qed.


(** The test of line 46. *)
Lemma load_environment_quiet (w : world) :
  faults w = [] ->
  load_environment w =
  (Ok (negb (key_missing (api_key_env w)
             || match api_key_env w with
                | Some k => str_eqb k placeholder_key
                | None => false
                end)), w).
Proof.
  intro Hf. unfold load_environment, os_getcwd, load_dotenv.
  rewrite bind_eq, external_quiet by exact Hf. unfold ret at 1.
  rewrite bind_eq, external_quiet by exact Hf. unfold ret at 1.
  unfold bind, getenv_api_key, ret.
  destruct (key_missing (api_key_env w)
            || match api_key_env w with
               | Some k => str_eqb k placeholder_key
               | None => false
               end); reflexivity.
Qed.

Lemma test_deepseek_key_sends_only (key : str) (w : world) :
  exists b sn, test_deepseek_key key w = (Ok b, with_sent sn w).
Proof.
  unfold test_deepseek_key, try_except, bind, requests_post, ret.
  match goal with |- context [remote w ?r] => destruct (remote w r) as [resp|e] end.
  - destruct (status_code resp =? 200); eauto.
  - eauto.
Qed.

Lemma with_sent_same (w : world) : with_sent (sent w) w = w.
Proof. now destruct w. Qed.

Lemma check_credential_sends_only (w : world) :
  faults w = [] ->
  exists sn, check_credential w = (Ok tt, with_sent sn w).
Proof.
  intro Hf. unfold check_credential.
  rewrite bind_eq, (load_environment_quiet w Hf).
  match goal with |- context [negb ?b] => destruct b end; cbn [negb].
  - exists (sent w). unfold ret. now rewrite with_sent_same.
  - unfold bind, getenv_api_key.
    destruct (api_key_env w) as [k|];
      [|exists (sent w); unfold ret; now rewrite with_sent_same].
    destruct (truthy k);
      [|exists (sent w); unfold ret; now rewrite with_sent_same].
    destruct (test_deepseek_key_sends_only k w) as (b & sn & ->).
    exists sn. reflexivity.
Qed.


Lemma replace_single (n : str) (c c0 : coll) :
  replace n c [(n, c0)] = [(n, c)].
Proof. cbn [replace]. now rewrite str_eqb_refl. Qed.

Lemma lookup_single (n : str) (c : coll) : lookup n [(n, c)] = Some c.
Proof. cbn [lookup]. now rewrite str_eqb_refl. Qed.

Lemma setup_then_ingest_quiet (w : world) (content : str) (chunks : list str) :
  faults w = [] -> source_document w = Some content ->
  chunk content chunk_size = Ok chunks ->
  exists w',
    load_document_to_chroma collection_name
      (with_collection (Some collection_name)
         (with_store (Some [(collection_name, [])]) true false w)) = (Ok tt, w') /\
    ingested chunks w' /\ source_document w' = Some content.
Proof.
  intros Hf Hsrc Hchunk.
  rewrite (load_document_quiet collection_name _ [(collection_name, [])] content chunks);
    auto using lookup_single.
  eexists. split; [reflexivity|]. rewrite replace_single.
  repeat split; auto.
Qed.

Lemma startup_quiet (w : world) (content : str) (chunks : list str) :
  faults w = [] -> source_document w = Some content ->
  chunk content chunk_size = Ok chunks ->
  exists w', startup w = (Ok tt, w') /\
    ingested chunks w' /\ source_document w' = Some content.
Proof.
  intros Hf Hsrc Hchunk. unfold startup.
  rewrite bind_eq. unfold new_process at 1.
  set (w0 := if chroma_removed w then with_store None false false w
             else with_store (chroma_dir w) false false w).
  assert (Hf0 : faults w0 = []) by (subst w0; now destruct (chroma_removed w)).
  assert (Ho0 : store_open w0 = false) by (subst w0; now destruct (chroma_removed w)).
  assert (Hs0 : source_document w0 = Some content)
    by (subst w0; now destruct (chroma_removed w)).
  clearbody w0. rewrite bind_eq.
  destruct (check_credential_sends_only w0 Hf0) as [sn ->].
  rewrite bind_eq, setup_chromadb_quiet by assumption.
  rewrite bind_eq. unfold set_chroma_collection at 1.
  apply (setup_then_ingest_quiet (with_sent sn w0) content chunks); auto.
Qed.


Section ResetFacts.

Variable str_exn : exn -> str.



End ResetFacts.




Example letters_stored_after_reset :
  stored_count collection_name
    (snd (reset_chroma class_name (snd (startup letters_world)))) = 3.
Proof. vm_compute. reflexivity. Qed.

(** ** Properties of the retrieval *)

Example join_two : join newline [lit "a"; lit "b"] = [97; 10; 98]%N.
Proof. reflexivity. Qed.

Lemma coll_query_cases (h : handle) (question : json) (n : nat) (w : world) :
  exists w',
    api_key_env w' = api_key_env w /\ remote w' = remote w /\ sent w' = sent w /\
    ((exists e, coll_query h question n w = (Raise e, w') /\
                (find_coll h w = None \/ (exists e' rest, faults w = Some e' :: rest)
                 \/ forall q, question <> JStr q)) \/
     (exists c q, question = JStr q /\ find_coll h w = Some c /\
        coll_query h question n w =
        (Ok (Some [firstn n (nearest (distance w question) (map snd c))]), w'))).
Proof.
  assert (Hop : forall w0, find_coll h w0 = find_coll h w ->
            distance w0 = distance w ->
            (exists e,
               match question with
               | JStr _ =>
                   match find_coll h w0 with
                   | Some c =>
                       (Ok (Some [firstn n (nearest (distance w0 question) (map snd c))]),
                        w0)
                   | None => (Raise (CollectionNotFound h), w0)
                   end
               | _ => (Raise ValueError, w0)
               end = (Raise e, w0) /\
               (find_coll h w = None \/ (exists e' rest, faults w = Some e' :: rest)
                \/ forall q, question <> JStr q)) \/
            (exists c q, question = JStr q /\ find_coll h w = Some c /\
               match question with
               | JStr _ =>
                   match find_coll h w0 with
                   | Some c =>
                       (Ok (Some [firstn n (nearest (distance w0 question) (map snd c))]),
                        w0)
                   | None => (Raise (CollectionNotFound h), w0)
                   end
               | _ => (Raise ValueError, w0)
               end
               = (Ok (Some [firstn n (nearest (distance w question) (map snd c))]), w0))).
  { intros w0 Hfind Hdist. rewrite Hfind, Hdist.
    destruct question as [| b | z | f | q | items | fields];
      try (left; exists ValueError; split; [reflexivity|]; right; right;
           intros q; discriminate).
    destruct (find_coll h w) as [c|]; [right | left]; eauto 6. }
  unfold coll_query, external.
  destruct (faults w) as [|[e|] rest] eqn:Hf.
  - exists w. repeat split. now apply Hop.
  - exists (with_faults rest w). repeat split. left. eauto 8.
  - exists (with_faults rest w). repeat split.
    apply Hop; [apply find_coll_with_faults | reflexivity].
Qed.

(** [sep.join] writes the parts in order, with [sep] before every part
    but the first. *)
Lemma join_concat (sep p : str) (rest : list str) :
  join sep (p :: rest) = p ++ concat (map (fun q => sep ++ q) rest).
Proof.
  revert p. induction rest as [|q rest IH]; intro p.
  - cbn. now rewrite app_nil_r.
  - change (join sep (p :: q :: rest)) with (p ++ sep ++ join sep (q :: rest)).
    rewrite IH. cbn [map concat]. now rewrite <- app_assoc.
Qed.

(** The retrieval in terms of the query's outcome: the print at line 294
    does not change the context. *)
Lemma retrieve_eq (question : json) (w : world) :
  retrieve question w =
  match chroma_collection w with
  | None => (Ok [], w)
  | Some h =>
      match coll_query h question 3 w with
      | (Ok (Some (first :: _)), w') => (Ok (join newline first), w')
      | (Ok _, w') => (Ok [], w')
      | (Raise _, w') => (Ok [], w')
      end
  end.
Proof.
  unfold retrieve, bind, get_chroma_collection, try_except.
  destruct (chroma_collection w) as [h|]; [|reflexivity].
  destruct (coll_query h question 3 w) as [[[[|[|p first] more]|]|e] w']; try reflexivity.
  destruct (truthy (join newline (p :: first))); [|reflexivity].
  unfold py_print. destruct (stdout_encodes w' _); reflexivity.
Qed.

Lemma retrieve_total (question : json) (w : world) :
  exists context w',
    retrieve question w = (Ok context, w') /\
    api_key_env w' = api_key_env w /\ remote w' = remote w /\ sent w' = sent w /\
    stdout_encodes w' = stdout_encodes w.
Proof.
  rewrite retrieve_eq.
  destruct (chroma_collection w) as [h|]; [|eauto 7].
  assert (H : exists w', snd (coll_query h question 3 w) = w' /\
            api_key_env w' = api_key_env w /\ remote w' = remote w /\
            sent w' = sent w /\ stdout_encodes w' = stdout_encodes w).
  { unfold coll_query, external.
    destruct (faults w) as [|[e|] rest]; [| |];
      try (destruct question; try destruct (find_coll h _));
      eexists; repeat split. }
  destruct H as (w' & Hw & Hk & Hr & Hs & Ho).
  destruct (coll_query h question 3 w) as [[[[|first more]|]|e] w1];
    cbn [snd] in Hw; subst w1; eauto 8.
Qed.

(** C6.  The retrieval never raises.  Without a collection the context
    is the empty string; when the query raises it is the empty string,
    which is the case of every question that is not a text; otherwise it
    is made of the texts of the first returned list, in order, with a
    line feed before every text but the first (the empty string when
    that list is empty or missing).  In particular it is the empty
    string when the collection holds no chunk or can no longer be found,
    and when the query succeeds it is made in this way of the three
    nearest stored texts. *)
Theorem retrieve_joins_or_empty (question : json) (w : world) :
  exists (context : str) (w' : world),
    retrieve question w = (Ok context, w') /\
    match chroma_collection w with
    | None => context = []
    | Some h =>
        match fst (coll_query h question 3 w) with
        | Ok (Some ((p :: rest) :: _)) =>
            context = p ++ concat (map (fun q => [10%N] ++ q) rest)
        | Ok _ => context = []
        | Raise _ => context = []
        end /\
        (find_coll h w = Some [] -> context = []) /\
        (find_coll h w = None -> context = []) /\
        ((forall q, question <> JStr q) -> context = []) /\
        (forall c q, faults w = [] -> find_coll h w = Some c -> question = JStr q ->
           match firstn 3 (nearest (distance w question) (map snd c)) with
           | [] => context = []
           | [a] => context = a
           | [a; b] => context = a ++ [10%N] ++ b
           | a :: b :: c' :: _ => context = a ++ [10%N] ++ b ++ [10%N] ++ c'
           end)
    end.
Proof.
  destruct (retrieve_total question w) as (context & w' & Hrun & _).
  exists context, w'. split; [exact Hrun|].
  rewrite retrieve_eq in Hrun.
  destruct (chroma_collection w) as [h|]; [|now injection Hrun as <- _].
  destruct (coll_query_cases h question 3 w)
    as (w1 & _ & _ & _ & [(e & Hq & Hwhy) | (c & q & Hquest & Hc & Hq)]);
    rewrite Hq in Hrun |- *; cbn [fst].
  - injection Hrun as <- _. repeat split.
    intros c q Hf Hc Hquest.
    destruct Hwhy as [Hn | [(e' & rest & Hf') | Hno]];
      [congruence | congruence | now destruct (Hno q)].
  - pose proof (firstn_le_length 3 (nearest (distance w question) (map snd c))) as Hlen.
    assert (Htext : (forall q', question <> JStr q') -> context = [])
      by (intro Hno; now destruct (Hno q)).
    destruct (firstn 3 (nearest (distance w question) (map snd c)))
      as [|p [|p2 [|p3 more]]] eqn:E; injection Hrun as <- _.
    + split; [reflexivity|]. split; [reflexivity|]. split; [reflexivity|].
      split; [reflexivity|].
      intros c' q' _ Hc' _. replace c' with c by congruence. now rewrite E.
    + split; [cbn; now rewrite app_nil_r|].
      split; [intro He; rewrite He in Hc; injection Hc as <-; discriminate|].
      split; [congruence|]. split; [exact Htext|].
      intros c' q' _ Hc' _. replace c' with c by congruence. now rewrite E.
    + split; [cbn; now rewrite ?app_nil_r|].
      split; [intro He; rewrite He in Hc; injection Hc as <-; discriminate|].
      split; [congruence|]. split; [exact Htext|].
      intros c' q' _ Hc' _. replace c' with c by congruence. now rewrite E.
    + assert (more = []) by (destruct more; [reflexivity | cbn in Hlen; lia]).
      subst more.
      split; [cbn; now rewrite ?app_nil_r|].
      split; [intro He; rewrite He in Hc; injection Hc as <-; discriminate|].
      split; [congruence|]. split; [exact Htext|].
      intros c' q' _ Hc' _. replace c' with c by congruence. now rewrite E.
Qed.

(** ** Properties of the chat handler *)

Ltac case_encodes :=
  match goal with
  | |- context [stdout_encodes ?w ?l] => destruct (stdout_encodes w l)
  end.

Section ChatFacts.

Variable str_exn : exn -> str.
Variable repr_value : json -> str.

Lemma chat_bad_request (e : exn) (w : world) :
  chat str_exn repr_value (Raise e) w = (Ok (server_error str_exn e), w).
Proof. reflexivity. Qed.

Lemma chat_not_an_object (data : json) (w : world) :
  match data with JObj _ => False | _ => True end ->
  chat str_exn repr_value (Ok data) w = (Ok (server_error str_exn AttributeError), w).
Proof. destruct data; intro H; try reflexivity; contradiction. Qed.

(** The question the handler reads from a request object. *)
Lemma chat_question (fields : list (str * json)) :
  dict_get (JObj fields) (lit "question") (JStr []) =
  Ok match lookup (lit "question") fields with
     | Some q => q
     | None => JStr []
     end.
Proof. unfold dict_get. now destruct (lookup (lit "question") fields). Qed.

Lemma chat_falsy (fields : list (str * json)) (question : json) (w : world) :
  dict_get (JObj fields) (lit "question") (JStr []) = Ok question ->
  py_truthy question = false ->
  chat str_exn repr_value (Ok (JObj fields)) w = (Ok no_question, w).
Proof.
  intros Hq Hf. unfold chat, try_except, bind, lift. rewrite Hq, Hf. reflexivity.
Qed.

(** A question whose line cannot be printed stops the handler at line
    280: nothing is retrieved and nothing is posted. *)
Lemma chat_unprintable (fields : list (str * json)) (question : json) (w : world) :
  dict_get (JObj fields) (lit "question") (JStr []) = Ok question ->
  py_truthy question = true ->
  stdout_encodes w (received_line repr_value question) = false ->
  chat str_exn repr_value (Ok (JObj fields)) w =
  (Ok (server_error str_exn UnicodeEncodeError), w).
Proof.
  intros Hq Ht He. unfold chat, try_except, bind, lift, py_print.
  rewrite Hq, Ht. cbn [negb]. now rewrite He.
Qed.

Lemma chat_truthy (fields : list (str * json)) (question : json) (w : world) :
  dict_get (JObj fields) (lit "question") (JStr []) = Ok question ->
  py_truthy question = true ->
  stdout_encodes w (received_line repr_value question) = true ->
  exists context w1 answer w2,
    retrieve question w = (Ok context, w1) /\
    api_key_env w1 = api_key_env w /\ remote w1 = remote w /\ sent w1 = sent w /\
    ask_deepseek str_exn question context w1 = (Ok answer, w2) /\
    chat str_exn repr_value (Ok (JObj fields)) w =
    (Ok match response_line repr_value answer with
        | Ok line =>
            if stdout_encodes w line
            then {| response := answer; success := true |}
            else server_error str_exn UnicodeEncodeError
        | Raise e => server_error str_exn e
        end, w2).
Proof.
  intros Hq Ht He.
  destruct (retrieve_total question w) as (context & w1 & Hr & Hk & Hrm & Hs & Ho1).
  destruct (ask_deepseek_total str_exn question context w1) as (answer & w2 & Ha & Ho2).
  exists context, w1, answer, w2. repeat (split; [assumption|]).
  unfold chat, try_except, bind, lift, py_print.
  rewrite Hq, Ht. cbn [negb]. rewrite He, Hr, Ha.
  destruct (response_line repr_value answer) as [line|e]; [|reflexivity].
  rewrite Ho2, Ho1. now destruct (stdout_encodes w line).
Qed.

(** The line printed for a text answer. *)
Lemma response_line_text (s : str) :
  response_line repr_value (JStr s) =
  Ok (lit "Generated response: "
      ++ (if 100 <? length s then firstn 100 s ++ lit "..." else s)).
Proof.
  unfold response_line, py_len, slice100, format_value.
  now destruct (100 <? length s).
Qed.

End ChatFacts.

Example chat_with_answer :
  fst (chat class_name type_name (question_body (JStr (lit "Who are you?")))
         loaded_store_world)
  = Ok {| response := JStr (lit "Hi"); success := true |}.
Proof. vm_compute. reflexivity. Qed.

Example chat_with_empty_question :
  fst (chat class_name type_name (question_body (JStr (lit ""))) loaded_store_world)
  = Ok {| response := JStr (lit "Please provide a question"); success := false |}.
Proof. vm_compute. reflexivity. Qed.

(** C2 as the spec states it fails: a request with a question gets
    [success = false] when the endpoint's 200 response carries a
    completion that is not text; a request whose body is not an object,
    or cannot be read, gets [success = false] with a message other than
    the prompt; and a question that stdout cannot encode, here a lone
    surrogate on a UTF-8 stdout, gets [success = false] at line 280,
    before anything is posted. *)
Lemma chat_success_false_beyond_empty_question :
  fst (chat class_name type_name (question_body (JStr (lit "Who are you?")))
         null_completion_world)
    = Ok {| response := JStr (lit "Server Error: TypeError"); success := false |} /\
  fst (chat class_name type_name (Ok (JArr [])) null_completion_world)
    = Ok {| response := JStr (lit "Server Error: AttributeError"); success := false |} /\
  fst (chat class_name type_name (Raise (ExternalError (lit "400 Bad Request")))
         null_completion_world)
    = Ok {| response := JStr (lit "Server Error: 400 Bad Request"); success := false |} /\
  chat class_name type_name (question_body (JStr lone_surrogate)) loaded_store_world
    = (Ok {| response := JStr (lit "Server Error: UnicodeEncodeError");
             success := false |}, loaded_store_world) /\
  sent loaded_store_world = [].
Proof. repeat split; vm_compute; reflexivity. Qed.

(** C2, amended.  The handler always gives a reply.  The reply is the
    prompt ["Please provide a question"] with [success = false] exactly
    when the body is an object whose question is absent or falsy.  A
    body that cannot be read or is not an object gets
    ["Server Error: ..."] with [success = false], and so does a question
    whose line ["Received question: ..."] stdout cannot encode: the
    handler stops there, without retrieving or posting anything.
    Otherwise the context is retrieved and the answer operation runs.
    The reply carries its answer with [success = true] when the line
    ["Generated response: ..."] can be built and printed; it is
    ["Server Error: ..."] with [success = false] when the answer cannot
    be measured or sliced (a completion that is [null], a number, a
    boolean, or an object of more than 100 entries) and when stdout
    cannot encode the line.  The answer is text, so that only the
    encoding of its line matters, for a missing credential, every
    transport failure and every status other than 200. *)
Theorem chat_reply_cases
    (str_exn : exn -> str) (repr_value : json -> str)
    (get_json : result json) (w : world) :
  exists (r : reply) (w' : world),
    chat str_exn repr_value get_json w = (Ok r, w') /\
    match get_json with
    | Raise e => r = server_error str_exn e
    | Ok (JObj fields) =>
        let question :=
          match lookup (lit "question") fields with
          | Some q => q
          | None => JStr []
          end in
        if py_truthy question then
          if stdout_encodes w
               (lit "Received question: "
                ++ match question with JStr s => s | _ => repr_value question end)
          then
            exists (context : str) (w1 : world) (answer : json),
              retrieve question w = (Ok context, w1) /\
              fst (ask_deepseek str_exn question context w1) = Ok answer /\
              match answer with
              | JStr s =>
                  if stdout_encodes w
                       (lit "Generated response: "
                        ++ (if 100 <? length s then firstn 100 s ++ lit "..." else s))
                  then r = {| response := answer; success := true |}
                  else r = server_error str_exn UnicodeEncodeError
              | JArr items =>
                  if stdout_encodes w
                       (lit "Generated response: "
                        ++ (if 100 <? length items
                            then repr_value (JArr (firstn 100 items)) ++ lit "..."
                            else repr_value answer))
                  then r = {| response := answer; success := true |}
                  else r = server_error str_exn UnicodeEncodeError
              | JObj items =>
                  if 100 <? length items then r = server_error str_exn TypeError
                  else if stdout_encodes w (lit "Generated response: " ++ repr_value answer)
                  then r = {| response := answer; success := true |}
                  else r = server_error str_exn UnicodeEncodeError
              | _ => r = server_error str_exn TypeError
              end /\
              match api_key_env w with
              | Some key =>
                  if truthy key then
                    match remote w (completion_request key question context) with
                    | Raise _ => exists s, answer = JStr s
                    | Ok resp =>
                        if status_code resp =? 200 then True
                        else exists s, answer = JStr s
                    end
                  else answer = JStr config_error
              | None => answer = JStr config_error
              end
          else r = server_error str_exn UnicodeEncodeError /\ w' = w
        else
          r = {| response := JStr (lit "Please provide a question"); success := false |}
    | Ok _ => r = server_error str_exn AttributeError
    end.
Proof.
  destruct get_json as [data|e].
  2:{ do 2 eexists. split; [apply chat_bad_request | reflexivity]. }
  destruct data as [| b | z | f | s | items | fields];
    try (do 2 eexists; split; [now apply chat_not_an_object | reflexivity]).
  pose proof (chat_question fields) as Hq. cbv zeta.
  set (question := match lookup (lit "question") fields with
                   | Some q => q | None => JStr [] end) in *.
  destruct (py_truthy question) eqn:Ht.
  2:{ do 2 eexists.
      split; [now apply chat_falsy with (question := question) | reflexivity]. }
  change (lit "Received question: "
          ++ match question with JStr s => s | _ => repr_value question end)
    with (received_line repr_value question).
  destruct (stdout_encodes w (received_line repr_value question)) eqn:He.
  2:{ do 2 eexists.
      split; [now apply chat_unprintable with (question := question) | now split]. }
  destruct (chat_truthy str_exn repr_value fields question w Hq Ht He)
    as (context & w1 & answer & w2 & Hr & Hk & Hrm & Hs & Ha & Hchat).
  do 2 eexists. split; [exact Hchat|].
  exists context, w1, answer. split; [exact Hr|]. split; [now rewrite Ha|].
  split.
  - destruct answer as [| b | z | f | s | items | items]; try reflexivity.
    + rewrite response_line_text. now case_encodes.
    + unfold response_line, py_len, slice100, format_value.
      destruct (100 <? length items); case_encodes; reflexivity.
    + unfold response_line, py_len, slice100, format_value.
      destruct (100 <? length items); [reflexivity|].
      now case_encodes.
  - destruct (api_key_env w) as [key|] eqn:Ekey.
    + assert (E1 : api_key_env w1 = Some key) by congruence.
      destruct (truthy key) eqn:Etk.
      * rewrite (ask_deepseek_configured str_exn question context key w1 E1 Etk) in Ha.
        rewrite Hrm in Ha. injection Ha as <- _.
        destruct (remote w (completion_request key question context)) as [resp|e];
          [|eauto].
        destruct (status_code resp =? 200); [exact I | eauto].
      * rewrite ask_deepseek_unconfigured in Ha
          by (rewrite E1; cbn; now rewrite Etk).
        now injection Ha as <- _.
    + assert (E1 : api_key_env w1 = None) by congruence.
      rewrite ask_deepseek_unconfigured in Ha by (now rewrite E1).
      now injection Ha as <- _.
Qed.

(** C10 as the spec states it fails: for the question [" "] the handler
    reports [success = false] when the endpoint's 200 response carries a
    [null] completion; and for the whitespace-only question U+3000 on an
    ASCII stdout it reports [success = false] at line 280, without
    retrieving or posting anything. *)
Lemma whitespace_question_can_fail :
  whitespace_only (lit " ") = true /\
  fst (chat class_name type_name (question_body (JStr (lit " "))) null_completion_world)
    = Ok {| response := JStr (lit "Server Error: TypeError"); success := false |} /\
  whitespace_only ideographic_space = true /\
  chat class_name type_name (question_body (JStr ideographic_space))
    (with_ascii_stdout serving_world)
    = (Ok {| response := JStr (lit "Server Error: UnicodeEncodeError");
             success := false |}, with_ascii_stdout serving_world) /\
  sent (with_ascii_stdout serving_world) = [].
Proof. repeat split; vm_compute; reflexivity. Qed.

(** C10, amended.  A question that is a non-empty, whitespace-only
    string is not taken for a missing one: the reply is never the
    prompt.  When stdout can encode the line ["Received question: ..."]
    the handler retrieves the context and runs the answer operation on
    the question as it is, which posts the completion request whenever a
    credential is configured, and the reply carries the answer with
    [success = true] whenever the answer is text and stdout can encode
    the line ["Generated response: ..."]; an answer that cannot be
    measured or sliced for that line, or a line that cannot be encoded,
    gives the catch-all reply.  When stdout cannot encode the first
    line, the reply is the catch-all one and nothing is retrieved or
    posted. *)
Theorem whitespace_question_is_answered
    (str_exn : exn -> str) (repr_value : json -> str)
    (q : str) (fields : list (str * json)) (w : world) :
  q <> [] ->
  whitespace_only q = true ->
  lookup (lit "question") fields = Some (JStr q) ->
  fst (chat str_exn repr_value (Ok (JObj fields)) w)
    <> Ok {| response := JStr (lit "Please provide a question"); success := false |} /\
  if stdout_encodes w (lit "Received question: " ++ q) then
    exists (context : str) (w1 : world) (answer : json) (w2 : world),
      retrieve (JStr q) w = (Ok context, w1) /\
      ask_deepseek str_exn (JStr q) context w1 = (Ok answer, w2) /\
      (forall key, api_key_env w = Some key -> truthy key = true ->
         sent w2 = sent w ++ [completion_request key (JStr q) context]) /\
      chat str_exn repr_value (Ok (JObj fields)) w =
        (Ok match response_line repr_value answer with
            | Ok line =>
                if stdout_encodes w line
                then {| response := answer; success := true |}
                else server_error str_exn UnicodeEncodeError
            | Raise e => server_error str_exn e
            end, w2) /\
      (forall s, answer = JStr s ->
         stdout_encodes w
           (lit "Generated response: "
            ++ (if 100 <? length s then firstn 100 s ++ lit "..." else s)) = true ->
         fst (chat str_exn repr_value (Ok (JObj fields)) w)
         = Ok {| response := JStr s; success := true |})
  else
    chat str_exn repr_value (Ok (JObj fields)) w
    = (Ok (server_error str_exn UnicodeEncodeError), w).
Proof.
  intros Hne _ Hq.
  assert (Hget : dict_get (JObj fields) (lit "question") (JStr []) = Ok (JStr q))
    by (rewrite chat_question; now rewrite Hq).
  assert (Ht : py_truthy (JStr q) = true) by (destruct q; [contradiction | reflexivity]).
  change (lit "Received question: " ++ q) with (received_line repr_value (JStr q)).
  destruct (stdout_encodes w (received_line repr_value (JStr q))) eqn:He.
  - destruct (chat_truthy str_exn repr_value fields (JStr q) w Hget Ht He)
      as (context & w1 & answer & w2 & Hr & Hk & Hrm & Hs & Ha & Hchat).
    split.
    { rewrite Hchat. cbn [fst].
      destruct (response_line repr_value answer) as [line|e];
        [destruct (stdout_encodes w line)|];
        unfold server_error; intro H; discriminate H. }
    exists context, w1, answer, w2.
    split; [exact Hr|]. split; [exact Ha|]. split; [|split; [exact Hchat|]].
    + intros key Hkey Htk.
      rewrite (ask_deepseek_configured str_exn (JStr q) context key w1) in Ha
        by congruence.
      injection Ha as _ <-. cbn [sent with_sent]. now rewrite Hs.
    + intros s -> Hline. rewrite Hchat. cbn [fst].
      now rewrite response_line_text, Hline.
  - rewrite (chat_unprintable str_exn repr_value fields (JStr q) w Hget Ht He).
    split; [|reflexivity].
    cbn [fst]. unfold server_error. intro H. discriminate H.
Qed.

Lemma whitespace_question_is_answered_witness :
  lit " " <> [] /\
  whitespace_only (lit " ") = true /\
  lookup (lit "question") [(lit "question", JStr (lit " "))] = Some (JStr (lit " ")) /\
  fst (chat class_name type_name (question_body (JStr (lit " "))) serving_world)
    <> Ok {| response := JStr (lit "Please provide a question"); success := false |} /\
  exists (context : str) (w1 : world) (answer : json) (w2 : world),
    retrieve (JStr (lit " ")) serving_world = (Ok context, w1) /\
    ask_deepseek class_name (JStr (lit " ")) context w1 = (Ok answer, w2) /\
    (forall key, api_key_env serving_world = Some key -> truthy key = true ->
       sent w2 = sent serving_world ++ [completion_request key (JStr (lit " ")) context]) /\
    chat class_name type_name (question_body (JStr (lit " "))) serving_world =
      (Ok match response_line type_name answer with
          | Ok line =>
              if stdout_encodes serving_world line
              then {| response := answer; success := true |}
              else server_error class_name UnicodeEncodeError
          | Raise e => server_error class_name e
          end, w2) /\
    (forall s, answer = JStr s ->
       stdout_encodes serving_world
         (lit "Generated response: "
          ++ (if 100 <? length s then firstn 100 s ++ lit "..." else s)) = true ->
       fst (chat class_name type_name (question_body (JStr (lit " "))) serving_world)
       = Ok {| response := JStr s; success := true |}).
Proof.
  split; [discriminate|]. split; [reflexivity|]. split; [reflexivity|].
  exact (whitespace_question_is_answered class_name type_name (lit " ")
           [(lit "question", JStr (lit " "))] serving_world
           ltac:(discriminate) eq_refl eq_refl).
Defined.

Example whitespace_question_on_serving_world :
  fst (chat class_name type_name (question_body (JStr (lit " "))) serving_world)
  = Ok {| response := JStr (lit "Hi"); success := true |} /\
  map (fun r => messages r)
      (sent (snd (chat class_name type_name (question_body (JStr (lit " ")))
                    serving_world)))
  = [[(lit "system", JStr (persona ++ lit " Context: I like hiking."));
      (lit "user", JStr (lit " "))]].
Proof. split; vm_compute; reflexivity. Qed.

(** ** The theorems at sample worlds *)

Lemma setup_chromadb_recreates_store_witness :
  (faults loaded_store_world = [] /\ store_open loaded_store_world = false /\
   exists r w',
     setup_chromadb loaded_store_world = (Ok r, w') /\
     r = Some collection_name /\ find_coll collection_name w' = Some [] /\
     store_open w' = true) /\
  (faults running_world = [] /\ store_open running_world = true /\
   chroma_dir running_world
     = Some [(collection_name, [(lit "chunk_0", lit "I like hiking.")])] /\
   exists r w',
     setup_chromadb running_world = (Ok r, w') /\
     r = Some collection_name /\
     find_coll collection_name w' = Some [(lit "chunk_0", lit "I like hiking.")]) /\
  (faults (with_nothing_left locked_store_world)
     = [Some (ExternalError (lit "Permission denied"))] /\
   chroma_dir (with_nothing_left locked_store_world)
     = Some [(collection_name, [(lit "chunk_0", lit "I like hiking.")])] /\
   chroma_removed (with_nothing_left locked_store_world) = false /\
   exists r w',
     setup_chromadb (with_nothing_left locked_store_world) = (Ok r, w') /\
     r = Some collection_name /\
     find_coll collection_name w' = Some []).
Proof.
  split; [|split].
  - split; [reflexivity|]. split; [reflexivity|].
    destruct (setup_chromadb_recreates_store loaded_store_world)
      as (r & w' & Hrun & Hquiet & _).
    exists r, w'. split; [exact Hrun|]. apply Hquiet; reflexivity.
  - split; [reflexivity|]. split; [reflexivity|]. split; [reflexivity|].
    destruct (setup_chromadb_recreates_store running_world)
      as (r & w' & Hrun & _ & Hopen & _).
    exists r, w'. split; [exact Hrun|].
    destruct (Hopen _ eq_refl eq_refl eq_refl) as (Hr & Hc & _).
    split; [exact Hr | exact Hc].
  - split; [reflexivity|]. split; [reflexivity|]. split; [reflexivity|].
    destruct (setup_chromadb_recreates_store (with_nothing_left locked_store_world))
      as (r & w' & Hrun & _ & _ & Hleft & _).
    exists r, w'. split; [exact Hrun|].
    apply (Hleft (ExternalError (lit "Permission denied")) _ eq_refl eq_refl eq_refl).
Defined.

Lemma bulk_insert_only_when_empty_witness :
  faults empty_store_world = [] /\
  find_coll collection_name empty_store_world = Some [] /\
  exists w',
    bulk_insert collection_name [lit "a"; lit "b"] empty_store_world = (Ok tt, w') /\
    find_coll collection_name w'
      = Some [(lit "chunk_0", lit "a"); (lit "chunk_1", lit "b")] /\
    bulk_insert collection_name [lit "a"; lit "b"] w' = (Ok tt, w').
Proof.
  split; [reflexivity|]. split; [reflexivity|].
  destruct (bulk_insert_only_when_empty collection_name [lit "a"; lit "b"]
              empty_store_world) as (w' & Hrun & _ & Hempty & _).
  exists w'. split; [exact Hrun|]. apply Hempty; reflexivity.
Defined.

Lemma retrieve_joins_or_empty_witness :
  (find_coll collection_name empty_store_world = Some [] /\
   exists context w',
     retrieve (JStr (lit "Who are you?")) empty_store_world = (Ok context, w') /\
     context = []) /\
  (faults two_chunk_world = [] /\
   find_coll collection_name two_chunk_world
     = Some [(lit "chunk_0", lit "I like hiking.");
             (lit "chunk_1", lit "I live in Oslo.")] /\
   exists context w',
     retrieve (JStr (lit "Who are you?")) two_chunk_world = (Ok context, w') /\
     context = lit "I like hiking." ++ [10%N] ++ lit "I live in Oslo.").
Proof.
  split.
  - split; [reflexivity|].
    destruct (retrieve_joins_or_empty (JStr (lit "Who are you?")) empty_store_world)
      as (context & w' & Hrun & Hcases).
    exists context, w'. split; [exact Hrun|].
    cbv beta iota delta [chroma_collection empty_store_world sample_world] in Hcases.
    destruct Hcases as (_ & Hempty & _). apply Hempty. reflexivity.
  - split; [reflexivity|]. split; [reflexivity|].
    destruct (retrieve_joins_or_empty (JStr (lit "Who are you?")) two_chunk_world)
      as (context & w' & Hrun & Hcases).
    exists context, w'. split; [exact Hrun|].
    cbv beta iota delta [chroma_collection two_chunk_world sample_world] in Hcases.
    destruct Hcases as (_ & _ & _ & _ & Hjoin).
    exact (Hjoin [(lit "chunk_0", lit "I like hiking.");
                  (lit "chunk_1", lit "I live in Oslo.")] (lit "Who are you?")
             eq_refl eq_refl eq_refl).
Defined.

Example two_chunk_context :
  fst (retrieve (JStr (lit "Who are you?")) two_chunk_world)
  = Ok (lit "I like hiking." ++ [10%N] ++ lit "I live in Oslo.").
Proof. vm_compute. reflexivity. Qed.

(** ** Further properties: the credential check at start-up *)

Lemma with_faults_same (w : world) : with_faults (faults w) w = w.
Proof. now destruct w. Qed.

(** load_environment under every failure schedule: its two calls outside
    any [try] come first. *)
Lemma load_environment_cases (w : world) :
  load_environment w =
  match faults w with
  | Some e :: rest => (Raise e, with_faults rest w)
  | None :: Some e :: rest => (Raise e, with_faults rest w)
  | schedule =>
      (Ok match api_key_env w with
          | Some k => truthy k && negb (str_eqb k placeholder_key)
          | None => false
          end, with_faults (skipn 2 schedule) w)
  end.
Proof.
  assert (Htest : forall w0,
            (api_key <- getenv_api_key ;;
             if key_missing api_key
                || match api_key with
                   | Some k => str_eqb k placeholder_key
                   | None => false
                   end
             then ret false else ret true) w0 =
            (Ok match api_key_env w0 with
                | Some k => truthy k && negb (str_eqb k placeholder_key)
                | None => false
                end, w0)).
  { intro w0. unfold bind, getenv_api_key, ret.
    destruct (api_key_env w0) as [k|]; [|reflexivity].
    cbn [key_missing]. destruct (truthy k), (str_eqb k placeholder_key); reflexivity. }
  unfold load_environment, os_getcwd, load_dotenv.
  rewrite bind_eq. unfold external at 1.
  destruct (faults w) as [|[e|] rest] eqn:Hf.
  - unfold ret at 1. rewrite bind_eq. unfold external at 1. rewrite Hf.
    unfold ret at 1. rewrite Htest. cbn [skipn]. now rewrite <- Hf, with_faults_same.
  - reflexivity.
  - unfold ret at 1. rewrite bind_eq. unfold external at 1.
    cbn [faults with_faults].
    destruct rest as [|[e|] rest].
    + unfold ret at 1. rewrite Htest. reflexivity.
    + reflexivity.
    + unfold ret at 1. rewrite Htest. reflexivity.
Qed.


(** X1.  test_deepseek_key never raises and posts exactly one request,
    carrying the key as bearer credential; it answers [True] exactly when
    the endpoint answers that request with status 200 (a transport
    failure and every other status give [False]). *)
Theorem test_deepseek_key_reports_status (key : str) (w : world) :
  exists (req : http_request) (b : bool),
    test_deepseek_key key w = (Ok b, with_sent (sent w ++ [req]) w) /\
    url req = completions_url /\
    authorization req = lit "Bearer " ++ key /\
    max_tokens req = 50 /\ timeout req = 10 /\
    (b = true <-> exists r, remote w req = Ok r /\ status_code r = 200).
Proof.
  unfold test_deepseek_key, try_except, bind, requests_post, ret. cbv zeta.
  eexists.
  match goal with |- context [remote w ?r] => destruct (remote w r) as [resp|e] eqn:E end.
  - destruct (status_code resp =? 200) eqn:Es.
    + exists true. repeat split; try reflexivity.
      intros _. exists resp. split; [exact E|]. now apply Nat.eqb_eq.
    + exists false. repeat split; try reflexivity; try discriminate.
      intros (r & Hr & Hs). rewrite E in Hr. injection Hr as <-.
      apply Nat.eqb_neq in Es. contradiction.
  - exists false. repeat split; try reflexivity; try discriminate.
    intros (r & Hr & _). rewrite E in Hr. discriminate.
Qed.


(** ** Further properties: what the operations leave untouched *)

Section Preservation.

Variable R : world -> world -> Prop.
Hypothesis R_refl : forall w, R w w.
Hypothesis R_trans : forall a b c, R a b -> R b c -> R a c.

Lemma preserves_ret {A} (a : A) : preserves R (ret a).
Proof. intro w. apply R_refl. Qed.

Lemma preserves_lift {A} (r : result A) : preserves R (lift r).
Proof. intro w. apply R_refl. Qed.

Lemma preserves_bind {A B} (m : M A) (k : A -> M B) :
  preserves R m -> (forall a, preserves R (k a)) -> preserves R (bind m k).
Proof.
  intros Hm Hk w. unfold bind. specialize (Hm w).
  destruct (m w) as [[a|e] w1]; cbn [snd] in *; [|exact Hm].
  eapply R_trans; [exact Hm | apply Hk].
Qed.

Lemma preserves_try {A} (body : M A) (handler : exn -> M A) :
  preserves R body -> (forall e, preserves R (handler e)) ->
  preserves R (try_except body handler).
Proof.
  intros Hb Hh w. unfold try_except. specialize (Hb w).
  destruct (body w) as [[a|e] w1]; cbn [snd] in *; [exact Hb|].
  eapply R_trans; [exact Hb | apply Hh].
Qed.

Lemma preserves_external {A} (op : M A) :
  (forall f w, R w (with_faults f w)) ->
  preserves R op -> preserves R (external op).
Proof.
  intros Hf Hop w. unfold external.
  destruct (faults w) as [|[e|] rest]; cbn [snd].
  - apply Hop.
  - apply Hf.
  - eapply R_trans; [apply Hf | apply Hop].
Qed.

End Preservation.

Lemma same_surroundings_refl (w : world) : same_surroundings w w.
Proof. repeat split. Qed.

Lemma same_surroundings_trans (a b c : world) :
  same_surroundings a b -> same_surroundings b c -> same_surroundings a c.
Proof. unfold same_surroundings. intros H1 H2. intuition congruence. Qed.

Lemma only_faults_differ_refl (w : world) : only_faults_differ w w.
Proof. repeat split. Qed.

Lemma only_faults_differ_trans (a b c : world) :
  only_faults_differ a b -> only_faults_differ b c -> only_faults_differ a c.
Proof.
  intros (S1 & A1 & A2 & A3 & A4 & A5) (S2 & B1 & B2 & B3 & B4 & B5).
  split; [apply (same_surroundings_trans a b c); assumption|].
  repeat split; congruence.
Qed.

Lemma only_faults_differ_faults (f : list (option exn)) (w : world) :
  only_faults_differ w (with_faults f w).
Proof. repeat split. Qed.

Lemma store_grows_refl (w : world) : store_grows w w.
Proof. repeat split; auto. Qed.

Lemma store_grows_trans (a b c : world) :
  store_grows a b -> store_grows b c -> store_grows a c.
Proof.
  intros (S1 & A1 & A2 & A3 & A4 & A5) (S2 & B1 & B2 & B3 & B4 & B5).
  split; [apply (same_surroundings_trans a b c); assumption|].
  repeat split; try congruence. auto.
Qed.

Lemma store_grows_faults (f : list (option exn)) (w : world) :
  store_grows w (with_faults f w).
Proof. repeat split; auto. Qed.

Lemma only_faults_differ_grows (w w' : world) :
  only_faults_differ w w' -> store_grows w w'.
Proof.
  intros (Hs & Hd & Hc & Hsent & Ho & Hr). repeat split; try apply Hs; auto.
  intros h. unfold find_coll. now rewrite Hd.
Qed.

Ltac frame_side :=
  try solve [ exact only_faults_differ_refl | exact only_faults_differ_trans
            | exact only_faults_differ_faults ].

Ltac frame_step :=
  first [ apply preserves_bind | apply preserves_try | apply preserves_ret
        | apply preserves_lift | apply preserves_external ];
  frame_side;
  try match goal with |- forall _, preserves _ _ => intro end.

Ltac frame_case :=
  match goal with
  | |- preserves _ (match ?x with _ => _ end) => destruct x
  | |- preserves _ (if ?x then _ else _) => destruct x
  end.

Ltac frame_leaf :=
  let w := fresh "w" in
  intro w;
  repeat match goal with
         | |- context [match ?x with _ => _ end] => destruct x
         end;
  try apply only_faults_differ_refl.

Ltac reads_only := repeat first [frame_step | frame_case]; try frame_leaf.

Lemma coll_get_ids_reads (h : handle) : preserves only_faults_differ (coll_get_ids h).
Proof. unfold coll_get_ids. reads_only. Qed.

Lemma coll_query_reads (h : handle) (question : json) (n : nat) :
  preserves only_faults_differ (coll_query h question n).
Proof. unfold coll_query. reads_only. Qed.

Lemma read_document_reads (p : doc_path) : preserves only_faults_differ (read_document p).
Proof. unfold read_document. reads_only. Qed.

Lemma py_print_reads (line : str) : preserves only_faults_differ (py_print line).
Proof.
  intro w. unfold py_print.
  destruct (stdout_encodes w line); apply only_faults_differ_refl.
Qed.

Lemma retrieve_reads (question : json) : preserves only_faults_differ (retrieve question).
Proof.
  intro w. rewrite retrieve_eq.
  destruct (chroma_collection w) as [h|]; [|apply only_faults_differ_refl].
  pose proof (coll_query_reads h question 3 w) as H.
  destruct (coll_query h question 3 w) as [[[[|first more]|]|e] w']; exact H.
Qed.

Lemma health_check_reads : preserves only_faults_differ health_check.
Proof. unfold health_check. reads_only. Qed.

(** ** Further properties: the store set-up under every failure schedule *)

Lemma get_collection_ok (n : str) (w : world) (h : handle) (w' : world) :
  get_collection n w = (Ok h, w') -> h = n /\ find_coll n w' <> None.
Proof.
  unfold get_collection, external.
  destruct (faults w) as [|[e|] rest]; try discriminate.
  - destruct (find_coll n w) eqn:E; [|discriminate].
    intro H. injection H as <- <-. split; congruence.
  - rewrite find_coll_with_faults. destruct (find_coll n w) eqn:E; [|discriminate].
    intro H. injection H as <- <-. rewrite find_coll_with_faults. split; congruence.
Qed.

Lemma create_collection_ok (n : str) (w : world) (h : handle) (w' : world) :
  create_collection n w = (Ok h, w') -> h = n /\ find_coll n w' = Some [].
Proof.
  assert (Hop : forall w0, (match chroma_dir w0 with
                            | Some d =>
                                match lookup n d with
                                | Some _ => (Raise (CollectionExists n), w0)
                                | None =>
                                    (Ok n, with_dir (Some (d ++ [(n, [])])) w0)
                                end
                            | None => (Raise FileNotFound, w0)
                            end) = (Ok h, w') -> h = n /\ find_coll n w' = Some []).
  { intros w0. destruct (chroma_dir w0) as [d|]; [|discriminate].
    destruct (lookup n d) eqn:E; [discriminate|].
    intro H. injection H as <- <-. split; [reflexivity|].
    unfold find_coll. cbn [chroma_dir with_dir]. now apply lookup_app_fresh. }
  unfold create_collection, external.
  destruct (faults w) as [|[e|] rest]; try discriminate; apply Hop.
Qed.

Lemma setup_chromadb_live (w : world) (h : handle) (w' : world) :
  setup_chromadb w = (Ok (Some h), w') ->
  h = collection_name /\ find_coll h w' <> None.
Proof.
  intro Hrun. unfold setup_chromadb in Hrun. apply try_ok in Hrun.
  assert (Hlast : forall w0,
            (collection <- create_collection collection_name ;;
             ret (Some collection)) w0 = (Ok (Some h), w') ->
            h = collection_name /\ find_coll h w' <> None).
  { intros w0 H. apply bind_ok in H. destruct H as (a & w2 & Ha & Hret).
    injection Hret as -> ->. apply create_collection_ok in Ha.
    destruct Ha as [-> Hc]. split; congruence. }
  destruct Hrun as [Hmain | (e & w2 & _ & Hfall)].
  - apply bind_ok in Hmain. destruct Hmain as (p & w2 & _ & H2).
    apply bind_ok in H2. destruct H2 as (u1 & w3 & _ & H3).
    apply bind_ok in H3. destruct H3 as (u2 & w4 & _ & H4).
    apply bind_ok in H4. destruct H4 as (names & w5 & _ & H5).
    apply bind_ok in H5. destruct H5 as (a & w6 & Ha & Hret).
    injection Hret as -> ->. apply try_ok in Ha.
    destruct Ha as [Ha | (e & w7 & _ & Ha)].
    + apply get_collection_ok in Ha. destruct Ha as [-> Hc]. now split.
    + apply create_collection_ok in Ha. destruct Ha as [-> Hc]. split; congruence.
  - apply try_ok in Hfall. destruct Hfall as [Hfall | (e' & w3 & _ & Hnone)].
    + apply bind_ok in Hfall. destruct Hfall as (u & w3 & _ & H3).
      now apply (Hlast w3).
    + discriminate Hnone.
Qed.

(** X3.  Whatever external calls fail, the set-up returns; when it
    returns a handle, that handle is the collection
    [andy_knowledge_base] and the collection exists in the store the
    set-up leaves behind. *)
Theorem setup_chromadb_handle_is_live (w : world) :
  exists (r : option handle) (w' : world),
    setup_chromadb w = (Ok r, w') /\
    match r with
    | Some h => h = collection_name /\ exists c, find_coll h w' = Some c
    | None => True
    end.
Proof.
  destruct (setup_chromadb_total w) as (r & w' & Hrun).
  exists r, w'. split; [exact Hrun|].
  destruct r as [h|]; [|exact I].
  destruct (setup_chromadb_live w h w' Hrun) as [-> Hc].
  split; [reflexivity|].
  destruct (find_coll collection_name w') as [c|]; [eauto | contradiction].
Qed.

(** The fallback can only create: when the removal fails, the listing
    fails and the collection is still in what the removal left, the
    set-up gives up. *)
Lemma setup_chromadb_gives_up (w : world) (e1 e2 : exn) (d : db) (c : coll) :
  faults w = [Some e1; None; Some e2] ->
  chroma_dir w = Some d -> chroma_removed w = false ->
  lookup collection_name (leftover w d) = Some c ->
  setup_chromadb w =
  (Ok None, with_store (Some (leftover w d)) true false (with_faults [] w)).
Proof.
  intros Hf Hd Hr Hc. destruct w as [k d0 m cu ds rm sn f g o r lf so].
  cbn [faults chroma_dir chroma_removed leftover] in Hf, Hd, Hr, Hc. subst f d0 r.
  run_setup. rewrite Hc. reflexivity.
Qed.

(** X4.  When the removal of the store directory fails and listing the
    collections fails, the set-up answers with the sentinel although the
    collection is still there, with the chunks the removal left: the
    fallback only tries to create the collection, which the store
    refuses for an existing name.  The store stays as the failed removal
    left it. *)
Theorem setup_chromadb_unavailable_though_present
    (w : world) (e1 e2 : exn) (d : db) (c : coll) :
  faults w = [Some e1; None; Some e2] ->
  chroma_dir w = Some d -> chroma_removed w = false ->
  lookup collection_name (leftover w d) = Some c ->
  fst (setup_chromadb w) = Ok None /\
  find_coll collection_name (snd (setup_chromadb w)) = Some c /\
  chroma_dir (snd (setup_chromadb w)) = Some (leftover w d).
Proof.
  intros Hf Hd Hr Hc. rewrite (setup_chromadb_gives_up w e1 e2 d c Hf Hd Hr Hc).
  repeat split. exact Hc.
Qed.

(** ** Further properties: ingestion under every failure schedule *)

Lemma reads_grows {A} (m : M A) :
  preserves only_faults_differ m -> preserves store_grows m.
Proof. intros H w. apply only_faults_differ_grows, H. Qed.

Lemma lookup_replace_keeps (h h' : handle) (c : coll) (d : db) :
  lookup h' d <> None -> lookup h' (replace h c d) <> None.
Proof.
  induction d as [|[n x] d IH]; simpl; [auto|].
  destruct (str_eqb h n) eqn:E; simpl; destruct (str_eqb h' n); auto; discriminate.
Qed.

Lemma coll_add_grows (h : handle) (documents ids : list str) :
  preserves store_grows (coll_add h documents ids).
Proof.
  unfold coll_add.
  apply preserves_external;
    [exact store_grows_trans | exact store_grows_faults |].
  intro w. unfold find_coll at 1.
  destruct (chroma_dir w) as [d|] eqn:Hd; [|apply store_grows_refl].
  destruct (lookup h d) as [c|]; [|apply store_grows_refl].
  match goal with |- context [if ?b then _ else _] => destruct b end;
    [apply store_grows_refl|].
  cbn [snd]. repeat split. intros h' Hh'. unfold find_coll in *.
  rewrite Hd in Hh'. cbn [chroma_dir with_dir]. now apply lookup_replace_keeps.
Qed.

Ltac grows_side :=
  try solve [ exact store_grows_refl | exact store_grows_trans
            | exact store_grows_faults ].

Ltac grows_step :=
  first [ apply coll_add_grows
        | apply reads_grows; first [ apply coll_get_ids_reads | apply read_document_reads ]
        | apply preserves_bind | apply preserves_try | apply preserves_ret
        | apply preserves_lift ];
  grows_side;
  try match goal with |- forall _, preserves _ _ => intro end.

Ltac grows_only := repeat first [grows_step | frame_case].

Lemma bulk_insert_grows (h : handle) (chunks : list str) :
  preserves store_grows (bulk_insert h chunks).
Proof. unfold bulk_insert. grows_only. Qed.

Lemma locate_document_grows : preserves store_grows locate_document.
Proof. intro w. destruct (locate_document_source w) as (p & -> & _). apply store_grows_refl. Qed.

Lemma load_document_grows (h : handle) :
  preserves store_grows (load_document_to_chroma h).
Proof.
  unfold load_document_to_chroma.
  apply preserves_try; grows_side; [|intro; apply preserves_ret; grows_side].
  apply preserves_bind; grows_side; [apply locate_document_grows|].
  intros [p|]; [|apply preserves_ret; grows_side].
  apply preserves_bind; grows_side;
    [apply reads_grows, read_document_reads|].
  intro content. destruct (negb (truthy (strip content)));
    [apply preserves_ret; grows_side|].
  apply preserves_bind; grows_side.
  intro chunks. apply bulk_insert_grows.
Qed.

Lemma load_document_total (h : handle) (w : world) :
  exists w', load_document_to_chroma h w = (Ok tt, w').
Proof.
  unfold load_document_to_chroma, try_except.
  match goal with |- context [match ?b w with _ => _ end] =>
    destruct (b w) as [[[]|e] w1] end; unfold ret; eauto.
Qed.

Lemma read_document_ok (p : doc_path) (w : world) (content : str) (w1 : world) :
  read_document p w = (Ok content, w1) -> doc_at p w = Some content.
Proof.
  unfold read_document, external.
  destruct (faults w) as [|[e|] rest]; try discriminate.
  - destruct (doc_at p w); [intro H; now injection H as -> _ | discriminate].
  - change (doc_at p (with_faults rest w)) with (doc_at p w).
    destruct (doc_at p w); [intro H; now injection H as -> _ | discriminate].
Qed.

(** Either the ingestion leaves the store as it is, or it reached the
    guarded insertion with the chunks of a document that is not blank. *)
Lemma load_document_cases (h : handle) (w : world) :
  exists w', load_document_to_chroma h w = (Ok tt, w') /\
    ((chroma_dir w' = chroma_dir w /\ (source_document w = None -> w' = w)) \/
     exists content chunks w1,
       source_document w = Some content /\
       truthy (strip content) = true /\
       chunk content chunk_size = Ok chunks /\
       only_faults_differ w w1 /\
       bulk_insert h chunks w1 = (Ok tt, w')).
Proof.
  unfold load_document_to_chroma, try_except, bind.
  destruct (locate_document_source w) as ([p|] & -> & Hp).
  2:{ exists w. split; [reflexivity|]. left. split; reflexivity. }
  destruct Hp as [Hp Hsome].
  pose proof (read_document_reads p w) as Hframe.
  destruct (read_document p w) as [[content|e] w1] eqn:Hr; cbn [snd] in Hframe.
  2:{ exists w1. split; [reflexivity|]. left.
      split; [apply Hframe | intro Hn; contradiction]. }
  apply read_document_ok in Hr. rewrite Hp in Hr.
  destruct (truthy (strip content)) eqn:Hb; cbn [negb].
  2:{ exists w1. split; [reflexivity|]. left.
      split; [apply Hframe | intro Hn; congruence]. }
  unfold lift. destruct (chunk content chunk_size) as [chunks|e] eqn:Hc.
  2:{ exists w1. split; [reflexivity|]. left.
      split; [apply Hframe | intro Hn; congruence]. }
  destruct (bulk_insert_total h chunks w1) as [w' Hrun]. rewrite Hrun.
  exists w'. split; [reflexivity|]. right.
  exists content, chunks, w1. repeat split; try assumption; apply Hframe.
Qed.

Lemma bulk_insert_missing (h : handle) (chunks : list str) (w : world) :
  find_coll h w = None -> chroma_dir (snd (bulk_insert h chunks w)) = chroma_dir w.
Proof.
  intro Hn. unfold bulk_insert, try_except, bind, coll_get_ids, external.
  destruct (faults w) as [|[e|] rest].
  - now rewrite Hn.
  - reflexivity.
  - rewrite find_coll_with_faults, Hn. reflexivity.
Qed.

(** X5.  The ingestion never raises, whatever external calls fail.  It
    writes nothing but the store: the handle, the documents, the
    environment and the requests sent stay as they were and no
    collection disappears.  The store itself is left unchanged when
    there is no document, when the document is empty or whitespace-only,
    when the collection already holds a chunk, and when the handle's
    collection is no longer in the store. *)
Theorem load_document_never_raises (h : handle) (w : world) :
  exists w' : world,
    load_document_to_chroma h w = (Ok tt, w') /\
    store_grows w w' /\
    (source_document w = None -> w' = w) /\
    (forall content, source_document w = Some content ->
       whitespace_only content = true -> chroma_dir w' = chroma_dir w) /\
    (forall c, find_coll h w = Some c -> c <> [] -> chroma_dir w' = chroma_dir w) /\
    (find_coll h w = None -> chroma_dir w' = chroma_dir w).
Proof.
  destruct (load_document_cases h w) as (w' & Hrun & Hcases).
  exists w'. split; [exact Hrun|].
  split; [pose proof (load_document_grows h w) as G; now rewrite Hrun in G|].
  destruct Hcases as [[Hsame Hnone] | (content & chunks & w1 & Hsrc & Hb & Hc & Hf & Hins)].
  - repeat split; auto.
  - assert (Hd1 : chroma_dir w1 = chroma_dir w) by apply Hf.
    assert (Hfind : forall x, find_coll x w1 = find_coll x w)
      by (intro x; unfold find_coll; now rewrite Hd1).
    split; [congruence|]. split; [|split].
    + intros content' Hsrc' Hws. rewrite Hsrc in Hsrc'. injection Hsrc' as <-.
      rewrite truthy_strip in Hb. unfold whitespace_only in Hws.
      rewrite Hws in Hb. discriminate.
    + intros c Hc0 Hne. rewrite <- Hfind in Hc0.
      destruct (bulk_insert_loaded h chunks w1 c Hc0 Hne) as (w2 & H2 & Hd2).
      rewrite Hins in H2. injection H2 as <-. congruence.
    + intro Hn. rewrite <- Hfind in Hn.
      pose proof (bulk_insert_missing h chunks w1 Hn) as Hd2.
      rewrite Hins in Hd2. cbn [snd] in Hd2. congruence.
Qed.

(** ** Further properties: start-up and reset under every failure schedule *)

Lemma handle_designates_after (r : option handle) (w1 w3 : world) :
  (forall h, r = Some h -> find_coll h w1 <> None) ->
  store_grows (with_collection r w1) w3 ->
  handle_designates w3.
Proof.
  intros Hlive (_ & _ & Hc & Hg) h Hh. rewrite Hc in Hh. cbn in Hh.
  apply Hg. apply (Hlive h Hh).
Qed.




Section ResetUnderFailures.

Variable str_exn : exn -> str.

(** Once the old directory is out of the way, the reset sets the store
    up, ingests and answers with success. *)
Lemma reset_tail (w0 : world) :
  exists w',
    (collection <- setup_chromadb ;;
     set_chroma_collection collection ;;;
     match collection with
     | Some c => load_document_to_chroma c
     | None => ret tt
     end ;;;
     ret {| reset_success := true; message := lit "ChromaDB reset successfully" |}) w0
    = (Ok {| reset_success := true; message := lit "ChromaDB reset successfully" |}, w') /\
    handle_designates w'.
Proof.
  unfold bind.
  destruct (setup_chromadb_total w0) as (r & w1 & Hs). rewrite Hs.
  unfold set_chroma_collection.
  assert (Hlive : forall h, r = Some h -> find_coll h w1 <> None)
    by (intros h ->; apply (setup_chromadb_live _ _ _ Hs)).
  destruct r as [h|].
  - destruct (load_document_total h (with_collection (Some h) w1)) as [w3 Hl].
    rewrite Hl. exists w3. split; [reflexivity|].
    apply (handle_designates_after (Some h) w1 w3 Hlive).
    pose proof (load_document_grows h (with_collection (Some h) w1)) as G.
    now rewrite Hl in G.
  - exists (with_collection None w1). split; [reflexivity|].
    intros h Hh. discriminate Hh.
Qed.

Lemma reset_chroma_cases (w : world) :
  (exists e rest d,
     chroma_dir w = Some d /\ chroma_removed w = false /\ faults w = Some e :: rest /\
     reset_chroma str_exn w =
       (Ok {| reset_success := false;
              message := lit "Error resetting ChromaDB: " ++ str_exn e |},
        with_dir (Some (leftover w d)) (with_faults rest w))) \/
  (~ (exists e rest d, chroma_dir w = Some d /\ chroma_removed w = false /\
                       faults w = Some e :: rest) /\
   exists w',
     reset_chroma str_exn w =
       (Ok {| reset_success := true; message := lit "ChromaDB reset successfully" |}, w') /\
     handle_designates w').
Proof.
  unfold reset_chroma, try_except. rewrite bind_eq. unfold chroma_path_exists.
  destruct (chroma_dir w) as [d|] eqn:Hd.
  - destruct (chroma_removed w) eqn:Hr; cbn [negb]; rewrite bind_eq.
    + right. split; [intros (e & rest & d' & _ & H & _); discriminate|].
      destruct (reset_tail w) as (w' & Hrun & Hinv).
      unfold ret at 1. rewrite Hrun. eauto.
    + unfold rmtree, removed, partly_removed.
      destruct (faults w) as [|[e|] rest] eqn:Hf.
      * right. split; [intros (e & rest & d' & _ & _ & H); discriminate|].
        rewrite Hd, Hr.
        destruct (store_open w);
          match goal with |- context [with_store ?a ?b ?c w] =>
            destruct (reset_tail (with_store a b c w)) as (w' & Hrun & Hinv)
          end; rewrite Hrun; eauto.
      * left. exists e, rest, d. cbn [chroma_dir chroma_removed with_faults].
        rewrite Hd, Hr. repeat split.
      * right. split; [intros (e & rest' & d' & _ & _ & H); discriminate|].
        cbn [chroma_dir chroma_removed store_open with_faults]. rewrite Hd, Hr.
        destruct (store_open w);
          match goal with |- context [with_store ?a ?b ?c ?v] =>
            destruct (reset_tail (with_store a b c v)) as (w' & Hrun & Hinv)
          end; rewrite Hrun; eauto.
  - right. split; [intros (e & rest & d' & H & _); discriminate|].
    rewrite bind_eq.
    destruct (reset_tail w) as (w' & Hrun & Hinv).
    unfold ret at 1. rewrite Hrun. eauto.
Qed.

End ResetUnderFailures.

(** X7.  The reset never raises.  It answers with [success = false]
    exactly when the store directory exists and its removal fails; the
    message then is ["Error resetting ChromaDB: "] followed by the
    error, the global handle stays as it was and the store is what the
    failed removal left of it.  In every other case it answers with
    [success = true] and leaves the handle unset or designating a
    collection of the store. *)
Theorem reset_chroma_fails_only_on_removal (str_exn : exn -> str) (w : world) :
  exists (rep : reset_reply) (w' : world),
    reset_chroma str_exn w = (Ok rep, w') /\
    (reset_success rep = false <->
     exists e rest d, chroma_dir w = Some d /\ chroma_removed w = false /\
                      faults w = Some e :: rest) /\
    (forall e rest d,
       chroma_dir w = Some d -> chroma_removed w = false -> faults w = Some e :: rest ->
       message rep = lit "Error resetting ChromaDB: " ++ str_exn e /\
       chroma_collection w' = chroma_collection w /\
       chroma_dir w' = Some (leftover w d) /\
       faults w' = rest) /\
    (reset_success rep = true ->
     message rep = lit "ChromaDB reset successfully" /\ handle_designates w').
Proof.
  destruct (reset_chroma_cases str_exn w)
    as [(e & rest & d & Hd & Hr & Hf & Hrun) | (Hno & w' & Hrun & Hinv')].
  - do 2 eexists. split; [exact Hrun|]. cbn [reset_success message].
    split; [|split; [|discriminate]].
    + split; [intros _; eauto 6 | reflexivity].
    + intros e' rest' d' Hd' _ Hf'.
      replace e' with e by congruence. replace rest' with rest by congruence.
      replace d' with d by congruence. repeat split.
  - do 2 eexists. split; [exact Hrun|]. cbn [reset_success message].
    split; [|split].
    + split; [discriminate | intro H; contradiction].
    + intros e rest d Hd Hr Hf. exfalso. apply Hno. eauto 6.
    + intros _. split; [reflexivity | exact Hinv'].
Qed.

(** X8.  When the directory is absent and the store cannot be opened,
    neither at first nor in the fallback, the reset still answers with
    [success = true]; the global handle is then unset, and the next
    retrieval gives the empty context without touching the store. *)
Theorem reset_chroma_success_without_store
    (str_exn : exn -> str) (w : world) (e1 e2 : exn) (rest : list (option exn)) :
  chroma_dir w = None ->
  faults w = Some e1 :: Some e2 :: rest ->
  reset_chroma str_exn w =
    (Ok {| reset_success := true; message := lit "ChromaDB reset successfully" |},
     with_collection None (with_faults rest w)) /\
  forall question,
    retrieve question (with_collection None (with_faults rest w)) =
    (Ok [], with_collection None (with_faults rest w)).
Proof.
  intros Hd Hf. destruct w as [k d m c ds rm sn f g o r lf so]. cbn in Hd, Hf. subst d f.
  split; [reflexivity | intro question; reflexivity].
Qed.

(** ** Further properties: the chunks and what the ingestion stores *)

Lemma range_len_ceil (len s : nat) : 0 < s -> range_len 0 len s = (len + s - 1) / s.
Proof.
  intro Hs. unfold range_len. destruct (0 <? len) eqn:E.
  - apply Nat.ltb_lt in E.
    replace (len + s - 1) with (len - 0 - 1 + 1 * s) by lia.
    rewrite Nat.div_add by lia. reflexivity.
  - apply Nat.ltb_ge in E. replace (len + s - 1) with (s - 1) by lia.
    symmetry. apply Nat.div_small. lia.
Qed.

Lemma chunk_facts (t : str) (s : nat) :
  0 < s ->
  exists raw,
    slices t s = Ok raw /\
    chunk t s = Ok (filter (fun c => negb (whitespace_only c)) raw) /\
    concat raw = t /\
    length raw = (length t + s - 1) / s /\
    Forall (fun c : str => 0 < length c <= s) raw.
Proof.
  intro Hs. pose proof (slices_blocks t s Hs) as Hraw.
  eexists. split; [exact Hraw|].
  split; [now apply chunk_of_slices|].
  split; [now apply (slices_concat t s _ Hs Hraw)|].
  split; [now rewrite length_map, length_seq, range_len_ceil|].
  apply Forall_forall. intros c Hin. apply in_map_iff in Hin.
  destruct Hin as (k & <- & Hk). apply in_seq in Hk.
  pose proof (range_len_inside s Hs (length t) k ltac:(lia)) as Hin.
  rewrite length_firstn, length_skipn. lia.
Qed.

Lemma filter_nil_iff {A} (f : A -> bool) (l : list A) :
  filter f l = [] <-> forallb (fun x => negb (f x)) l = true.
Proof.
  induction l as [|a l IH]; simpl; [tauto|].
  destruct (f a); simpl; [split; discriminate | exact IH].
Qed.

Lemma chunk_all_chunks (t : str) (s : nat) (chunks : list str) :
  0 < s -> chunk t s = Ok chunks ->
  Forall (fun c : str => whitespace_only c = false /\ 0 < length c <= s) chunks.
Proof.
  intros Hs Hchunk. destruct (chunk_facts t s Hs) as (raw & _ & Hc & _ & _ & Hall).
  rewrite Hc in Hchunk. injection Hchunk as <-.
  apply Forall_forall. intros c Hin. apply filter_In in Hin.
  destruct Hin as [Hin Hnb]. apply negb_true_iff in Hnb. split; [exact Hnb|].
  rewrite Forall_forall in Hall. now apply Hall.
Qed.

Lemma chunk_nil_iff (t : str) (s : nat) (chunks : list str) :
  0 < s -> chunk t s = Ok chunks -> (chunks = [] <-> truthy (strip t) = false).
Proof.
  intros Hs Hchunk. destruct (chunk_facts t s Hs) as (raw & _ & Hc & Hcat & _).
  rewrite Hc in Hchunk. injection Hchunk as <-.
  rewrite filter_nil_iff, truthy_strip, negb_false_iff.
  replace (forallb isspace t) with (whitespace_only (concat raw))
    by (now rewrite Hcat).
  rewrite whitespace_only_concat.
  replace (forallb (fun c => negb (negb (whitespace_only c))) raw)
    with (forallb whitespace_only raw); [reflexivity|].
  clear. induction raw as [|c raw IH]; simpl; [reflexivity|].
  now rewrite negb_involutive, IH.
Qed.

(** X9.  For a positive chunk size the chunking returns; there are at
    most [ceil(len(t) / s)] chunks, each is between 1 and [s] characters
    long and holds a character that is not whitespace, and there is no
    chunk at all exactly when the text is empty or whitespace-only, which
    is the case the ingestion returns early on at line 153. *)
Theorem chunk_bounds (t : str) (s : nat) :
  0 < s ->
  exists chunks : list str,
    chunk t s = Ok chunks /\
    length chunks <= (length t + s - 1) / s /\
    Forall (fun c : str => whitespace_only c = false /\ 0 < length c <= s) chunks /\
    (chunks = [] <-> truthy (strip t) = false).
Proof.
  intro Hs. destruct (chunk_facts t s Hs) as (raw & _ & Hc & Hcat & Hlen & Hall).
  eexists. split; [exact Hc|]. split; [|split].
  - rewrite <- Hlen. apply filter_length_le.
  - now apply (chunk_all_chunks t s).
  - now apply (chunk_nil_iff t s).
Qed.

Lemma chunk_bounds_witness :
  0 < 3 /\
  exists chunks : list str,
    chunk (lit "ab    cd e") 3 = Ok chunks /\
    length chunks <= (length (lit "ab    cd e") + 3 - 1) / 3 /\
    Forall (fun c : str => whitespace_only c = false /\ 0 < length c <= 3) chunks /\
    (chunks = [] <-> truthy (strip (lit "ab    cd e")) = false).
Proof.
  split; [lia | apply (chunk_bounds (lit "ab    cd e") 3); lia].
Defined.

Lemma combine_map_snd {A B} (a : list A) (b : list B) :
  length a = length b -> map snd (combine a b) = b.
Proof.
  revert b; induction a as [|x a IH]; intros [|y b]; simpl; try discriminate; auto.
  intro H. f_equal. apply IH. lia.
Qed.

Lemma combine_map_fst {A B} (a : list A) (b : list B) :
  length a = length b -> map fst (combine a b) = a.
Proof.
  revert b; induction a as [|x a IH]; intros [|y b]; simpl; try discriminate; auto.
  intro H. f_equal. apply IH. lia.
Qed.

(** What the ingestion stores into an empty collection when no call
    fails. *)
Lemma load_document_stores (h : handle) (w : world) (d : db) (content : str) :
  faults w = [] -> chroma_dir w = Some d -> lookup h d = Some [] ->
  source_document w = Some content ->
  exists chunks,
    chunk content chunk_size = Ok chunks /\
    find_coll h (snd (load_document_to_chroma h w))
      = Some (combine (chunk_ids chunks) chunks).
Proof.
  intros Hf Hd Hc Hsrc.
  destruct (chunk_facts content chunk_size ltac:(unfold chunk_size; lia))
    as (raw & _ & Hchunk & _).
  eexists. split; [exact Hchunk|].
  rewrite (load_document_quiet h w d content _ Hf Hd Hc Hsrc Hchunk). cbn [snd].
  unfold find_coll. cbn [chroma_dir with_dir]. now apply find_replace with (c0 := []).
Qed.

(** X10.  When no call fails, ingesting into an empty collection stores
    the chunks of the document in order: the ids are [chunk_0],
    [chunk_1], ... and pairwise distinct, and every stored text is a
    chunk, that is, not whitespace-only and at most 1000 characters
    long. *)
Theorem ingested_records_are_chunks
    (h : handle) (w : world) (d : db) (content : str) :
  faults w = [] -> chroma_dir w = Some d -> lookup h d = Some [] ->
  source_document w = Some content ->
  exists stored : coll,
    find_coll h (snd (load_document_to_chroma h w)) = Some stored /\
    chunk content chunk_size = Ok (map snd stored) /\
    NoDup (map fst stored) /\
    (forall k, k < length stored ->
       fst (nth k stored ([], [])) = lit "chunk_" ++ str_of_nat k) /\
    Forall is_chunk stored.
Proof.
  intros Hf Hd Hc Hsrc.
  destruct (load_document_stores h w d content Hf Hd Hc Hsrc) as (chunks & Hchunk & Hst).
  pose proof (chunk_ids_length chunks) as Hlen.
  exists (combine (chunk_ids chunks) chunks).
  split; [exact Hst|].
  split; [now rewrite combine_map_snd|].
  split; [rewrite combine_map_fst by exact Hlen;
          apply has_dup_false_iff, chunk_ids_nodup|].
  split.
  - intros k Hk. rewrite length_combine, Hlen, Nat.min_id in Hk.
    rewrite <- (chunk_ids_nth chunks k Hk).
    rewrite <- (combine_map_fst (chunk_ids chunks) chunks Hlen) at 2.
    symmetry. apply (nth_map_lt fst _ [] ([], [])).
    now rewrite length_combine, Hlen, Nat.min_id.
  - pose proof (chunk_all_chunks content chunk_size chunks
                  ltac:(unfold chunk_size; lia) Hchunk) as Hall.
    apply Forall_forall. intros r Hin. unfold is_chunk.
    rewrite Forall_forall in Hall. apply Hall.
    apply (in_map snd) in Hin. now rewrite combine_map_snd in Hin.
Qed.

(** X11.  Round trip of the ingestion: when no call fails and none of
    the slices of the document is whitespace-only, the texts stored in
    the (previously empty) collection, concatenated in the order of their
    ids, are the document itself. *)
Theorem ingested_texts_rebuild_document
    (h : handle) (w : world) (d : db) (content : str) (raw : list str) :
  faults w = [] -> chroma_dir w = Some d -> lookup h d = Some [] ->
  source_document w = Some content ->
  slices content chunk_size = Ok raw ->
  forallb (fun c => negb (whitespace_only c)) raw = true ->
  exists stored : coll,
    find_coll h (snd (load_document_to_chroma h w)) = Some stored /\
    map snd stored = raw /\
    concat (map snd stored) = content.
Proof.
  intros Hf Hd Hc Hsrc Hraw Hnb.
  destruct (load_document_stores h w d content Hf Hd Hc Hsrc) as (chunks & Hchunk & Hst).
  rewrite (chunk_of_slices content chunk_size raw Hraw) in Hchunk.
  injection Hchunk as <-.
  assert (Hkeep : filter (fun c => negb (whitespace_only c)) raw = raw).
  { clear - Hnb. induction raw as [|c raw IH]; simpl in *; [reflexivity|].
    apply andb_true_iff in Hnb. destruct Hnb as [Hc Hr]. rewrite Hc. f_equal. auto. }
  rewrite Hkeep in Hst. exists (combine (chunk_ids raw) raw).
  split; [exact Hst|].
  rewrite combine_map_snd by apply chunk_ids_length.
  split; [reflexivity|].
  apply (slices_concat content chunk_size raw); [unfold chunk_size; lia | exact Hraw].
Qed.

Lemma ingested_texts_rebuild_document_witness :
  faults letters_world = [] /\
  chroma_dir (with_dir (Some [(collection_name, [])]) letters_world)
    = Some [(collection_name, [])] /\
  lookup collection_name [(collection_name, @nil (str * str))] = Some [] /\
  source_document letters_world = Some letters_2500 /\
  slices letters_2500 chunk_size = Ok letters_chunks /\
  forallb (fun c => negb (whitespace_only c)) letters_chunks = true /\
  exists stored : coll,
    find_coll collection_name
      (snd (load_document_to_chroma collection_name
              (with_dir (Some [(collection_name, [])]) letters_world))) = Some stored /\
    map snd stored = letters_chunks /\
    concat (map snd stored) = letters_2500.
Proof.
  split; [reflexivity|]. split; [reflexivity|]. split; [reflexivity|].
  split; [reflexivity|]. split; [vm_compute; reflexivity|].
  split; [vm_compute; reflexivity|].
  apply (ingested_texts_rebuild_document collection_name
           (with_dir (Some [(collection_name, [])]) letters_world)
           [(collection_name, [])] letters_2500 letters_chunks);
    vm_compute; reflexivity.
Defined.

Lemma ingested_records_are_chunks_witness :
  faults letters_world = [] /\
  chroma_dir (with_dir (Some [(collection_name, [])]) letters_world)
    = Some [(collection_name, [])] /\
  lookup collection_name [(collection_name, @nil (str * str))] = Some [] /\
  source_document letters_world = Some letters_2500 /\
  exists stored : coll,
    find_coll collection_name
      (snd (load_document_to_chroma collection_name
              (with_dir (Some [(collection_name, [])]) letters_world))) = Some stored /\
    chunk letters_2500 chunk_size = Ok (map snd stored) /\
    NoDup (map fst stored) /\
    (forall k, k < length stored ->
       fst (nth k stored ([], [])) = lit "chunk_" ++ str_of_nat k) /\
    Forall is_chunk stored.
Proof.
  split; [reflexivity|]. split; [reflexivity|]. split; [reflexivity|].
  split; [reflexivity|].
  apply (ingested_records_are_chunks collection_name
           (with_dir (Some [(collection_name, [])]) letters_world)
           [(collection_name, [])] letters_2500); reflexivity.
Defined.

(** ** Further properties: retrieval and the chat handler *)

Lemma insert_by_in (f : str -> nat) (x y : str) (l : list str) :
  In y (insert_by f x l) -> y = x \/ In y l.
Proof.
  induction l as [|z l IH]; simpl.
  - intros [H|[]]; auto.
  - destruct (f x <=? f z); simpl.
    + intros [H|H]; auto.
    + intros [H|H]; auto. destruct (IH H); auto.
Qed.

Lemma in_firstn {A} (n : nat) (x : A) (l : list A) : In x (firstn n l) -> In x l.
Proof.
  intro H. rewrite <- (firstn_skipn n l). apply in_or_app. now left.
Qed.

Lemma nearest_in (f : str -> nat) (y : str) (l : list str) :
  In y (nearest f l) -> In y l.
Proof.
  induction l as [|x l IH]; simpl; [auto|].
  intro H. apply insert_by_in in H. destruct H; auto.
Qed.

(** X12.  The retrieval only reads: it leaves the store, the handle and
    everything else but the failure schedule as they were.  Its context
    is made of at most three texts, in order, with a line feed before
    every text but the first, and each of them is stored in the
    collection the global handle designates; when no call fails and the
    question is a text they are the three nearest stored texts. *)
Theorem retrieve_uses_stored_texts (question : json) (w : world) :
  exists docs : list str,
    fst (retrieve question w)
      = Ok match docs with
           | [] => []
           | p :: rest => p ++ concat (map (fun q => [10%N] ++ q) rest)
           end /\
    length docs <= 3 /\
    (forall t, In t docs ->
       exists h c, chroma_collection w = Some h /\ find_coll h w = Some c /\
                   In t (map snd c)) /\
    (forall h c q, chroma_collection w = Some h -> find_coll h w = Some c ->
       faults w = [] -> question = JStr q ->
       docs = firstn 3 (nearest (distance w question) (map snd c))) /\
    only_faults_differ w (snd (retrieve question w)).
Proof.
  assert (Hreads := retrieve_reads question w).
  rewrite retrieve_eq in *.
  destruct (chroma_collection w) as [h|] eqn:Hh.
  2:{ exists (@nil str). split; [reflexivity|]. split; [cbn; lia|].
      split; [intros t []|]. split; [discriminate | exact Hreads]. }
  destruct (coll_query_cases h question 3 w)
    as (w1 & _ & _ & _ & [(e & Hq & Hwhy) | (c & q & Hquest & Hc & Hq)]);
    rewrite Hq in *.
  - exists (@nil str). split; [reflexivity|]. split; [cbn; lia|].
    split; [intros t []|]. split; [|exact Hreads].
    intros h' c' q' Hh' Hc' Hf Hquest. injection Hh' as <-.
    destruct Hwhy as [Hn | [(e' & rest & Hf') | Hno]];
      [congruence | congruence | now destruct (Hno q')].
  - set (docs := firstn 3 (nearest (distance w question) (map snd c))) in *.
    exists docs. split; [|split; [|split; [|split]]].
    + cbn [fst]. destruct docs as [|x docs']; [reflexivity|].
      f_equal. apply (join_concat newline).
    + unfold docs. rewrite length_firstn. lia.
    + intros t Ht. exists h, c. repeat split; auto.
      unfold docs in Ht. apply in_firstn in Ht. now apply nearest_in in Ht.
    + intros h' c' q' Hh' Hc' _ _. injection Hh' as <-.
      replace c' with c by congruence. reflexivity.
    + exact Hreads.
Qed.

(** X13.  The chat handler only reads the knowledge base: whatever the
    request and whatever fails, the store, the global handle, the
    documents and the environment are as before.  It posts exactly one
    completion request, with the question as received as user message
    and the retrieved context in the system message, when the question
    is truthy, stdout can encode the line ["Received question: ..."] and
    a credential is configured; it posts nothing when the body is
    unreadable, not an object, without a truthy question, when stdout
    cannot encode that line, or when no credential is configured.  There
    is no second attempt. *)
Theorem chat_reads_store_and_posts_once
    (str_exn : exn -> str) (repr_value : json -> str)
    (get_json : result json) (w : world) :
  let w' := snd (chat str_exn repr_value get_json w) in
  same_surroundings w w' /\
  chroma_dir w' = chroma_dir w /\
  chroma_collection w' = chroma_collection w /\
  match get_json with
  | Ok (JObj fields) =>
      let question :=
        match lookup (lit "question") fields with
        | Some q => q
        | None => JStr []
        end in
      if py_truthy question then
        if stdout_encodes w
             (lit "Received question: "
              ++ match question with JStr s => s | _ => repr_value question end)
        then
          match api_key_env w with
          | Some key =>
              if truthy key then
                exists context,
                  fst (retrieve question w) = Ok context /\
                  sent w' = sent w ++ [completion_request key question context]
              else sent w' = sent w
          | None => sent w' = sent w
          end
        else w' = w
      else w' = w
  | _ => w' = w
  end.
Proof.
  cbv zeta.
  destruct get_json as [data|e];
    [|rewrite chat_bad_request; cbn [snd]; repeat split].
  destruct data as [| b | z | f | s | items | fields];
    try (rewrite chat_not_an_object by exact I; cbn [snd]; repeat split).
  pose proof (chat_question fields) as Hq.
  set (question := match lookup (lit "question") fields with
                   | Some q => q | None => JStr [] end) in *.
  destruct (py_truthy question) eqn:Ht.
  2:{ rewrite (chat_falsy str_exn repr_value fields question w Hq Ht).
      cbn [snd]. repeat split. }
  change (lit "Received question: "
          ++ match question with JStr s => s | _ => repr_value question end)
    with (received_line repr_value question).
  destruct (stdout_encodes w (received_line repr_value question)) eqn:He.
  2:{ rewrite (chat_unprintable str_exn repr_value fields question w Hq Ht He).
      cbn [snd]. repeat split. }
  destruct (chat_truthy str_exn repr_value fields question w Hq Ht He)
    as (context & w1 & answer & w2 & Hr & Hk & Hrm & Hs & Ha & Hchat).
  rewrite Hchat. cbn [snd].
  pose proof (retrieve_reads question w) as Hreads. rewrite Hr in Hreads.
  cbn [snd] in Hreads. destruct Hreads as (Hsur & Hd & Hc & _).
  destruct (api_key_env w) as [key|] eqn:Ekey.
  - assert (E1 : api_key_env w1 = Some key) by congruence.
    destruct (truthy key) eqn:Etk.
    + rewrite (ask_deepseek_configured str_exn question context key w1 E1 Etk) in Ha.
      injection Ha as _ <-. repeat split; try apply Hsur; auto.
      exists context. split; [now rewrite Hr|]. cbn [sent with_sent]. now rewrite Hs.
    + rewrite ask_deepseek_unconfigured in Ha by (rewrite E1; cbn; now rewrite Etk).
      injection Ha as _ <-. repeat split; try apply Hsur; auto.
  - assert (E1 : api_key_env w1 = None) by congruence.
    rewrite ask_deepseek_unconfigured in Ha by (now rewrite E1).
    injection Ha as _ <-. repeat split; try apply Hsur; auto.
Qed.

(** ** Further properties: the introspection routes *)

Lemma coll_get_ids_outcome (c : handle) (w : world) :
  exists w',
    (exists e, coll_get_ids c w = (Raise e, w') /\
               (find_coll c w = None \/ exists e' rest, faults w = Some e' :: rest)) \/
    (exists stored, find_coll c w = Some stored /\
                    coll_get_ids c w = (Ok (map fst stored), w')).
Proof.
  unfold coll_get_ids, external.
  destruct (faults w) as [|[e|] rest] eqn:Hf.
  - exists w. destruct (find_coll c w) as [stored|]; [right | left]; eauto.
  - exists (with_faults rest w). left. eauto 6.
  - exists (with_faults rest w). rewrite find_coll_with_faults.
    destruct (find_coll c w) as [stored|]; [right | left]; eauto.
Qed.

Lemma health_check_ok (w : world) (h : health) (w' : world) :
  health_check w = (Ok h, w') ->
  status h = lit "healthy" /\
  api_configured h = negb (key_missing (api_key_env w)) /\
  api_key_valid h =
    match api_key_env w with
    | Some k => negb (str_eqb k placeholder_key)
    | None => false
    end /\
  chromadb_connected h =
    match chroma_collection w with Some _ => true | None => false end /\
  document_exists h =
    match source_document w with Some _ => true | None => false end /\
  document_location h =
    match doc_my_data w, doc_current w with
    | Some _, _ => lit "my_data"
    | None, Some _ => lit "current"
    | None, None => lit "not_found"
    end /\
  (document_loaded h = true <->
   exists c stored, chroma_collection w = Some c /\ find_coll c w = Some stored /\
                    stored <> []).
Proof.
  unfold health_check, getenv_api_key, doc_exists, get_chroma_collection,
    source_document, doc_at. rewrite !bind_eq.
  destruct (chroma_collection w) as [c|] eqn:Hc.
  - rewrite bind_eq.
    destruct (coll_get_ids_outcome c w)
      as (w1 & [(e & -> & _) | (stored & Hst & ->)]); [discriminate|].
    unfold ret. intro H. injection H as <- _. cbn.
    repeat split.
    + destruct (doc_my_data w), (doc_current w); reflexivity.
    + destruct (doc_my_data w), (doc_current w); reflexivity.
    + intro Hl. exists c, stored. repeat split; auto.
      intros ->. discriminate Hl.
    + intros (c' & stored' & Hc' & Hst' & Hne). injection Hc' as <-.
      rewrite Hst' in Hst. injection Hst as <-.
      destruct stored' as [|r stored']; [contradiction | reflexivity].
  - unfold ret. intro H. injection H as <- _. cbn.
    repeat split.
    + destruct (doc_my_data w), (doc_current w); reflexivity.
    + destruct (doc_my_data w), (doc_current w); reflexivity.
    + discriminate.
    + intros (c' & _ & Hc' & _). discriminate.
Qed.

(** X14.  The health route only reads.  It raises exactly when the
    global handle is set and reading the ids of its collection fails:
    when the call itself fails it raises that failure, and when the
    collection is gone from the store it raises too; nothing in the
    route catches either.  Otherwise it reports ["healthy"], reports the
    store as connected exactly when the handle is set, and reports the
    document as loaded exactly when the handle's collection holds at
    least one chunk.  In particular it returns when no call fails and
    the handle designates a collection. *)
Theorem health_check_raises_only_on_store_failure (w : world) :
  only_faults_differ w (snd (health_check w)) /\
  ((exists e, fst (health_check w) = Raise e) <->
   exists c, chroma_collection w = Some c /\
     (find_coll c w = None \/ exists e' rest, faults w = Some e' :: rest)) /\
  (forall c e rest, chroma_collection w = Some c -> faults w = Some e :: rest ->
     fst (health_check w) = Raise e) /\
  (forall c, chroma_collection w = Some c -> find_coll c w = None ->
     (forall e rest, faults w <> Some e :: rest) ->
     fst (health_check w) = Raise (CollectionNotFound c)) /\
  (forall h, fst (health_check w) = Ok h ->
     status h = lit "healthy" /\
     (chromadb_connected h = true <-> chroma_collection w <> None) /\
     (document_loaded h = true <->
      exists c stored, chroma_collection w = Some c /\
                       find_coll c w = Some stored /\ stored <> [])) /\
  (faults w = [] -> handle_designates w -> exists h, fst (health_check w) = Ok h).
Proof.
  assert (Hfail : forall c e rest, chroma_collection w = Some c ->
            faults w = Some e :: rest -> fst (health_check w) = Raise e).
  { intros c e rest Hc Hf.
    unfold health_check, getenv_api_key, doc_exists, get_chroma_collection.
    rewrite !bind_eq, Hc, bind_eq. unfold coll_get_ids, external. now rewrite Hf. }
  assert (Hgone : forall c, chroma_collection w = Some c -> find_coll c w = None ->
            (forall e rest, faults w <> Some e :: rest) ->
            fst (health_check w) = Raise (CollectionNotFound c)).
  { intros c Hc Hn Hf.
    unfold health_check, getenv_api_key, doc_exists, get_chroma_collection.
    rewrite !bind_eq, Hc, bind_eq. unfold coll_get_ids, external.
    destruct (faults w) as [|[e|] rest].
    - now rewrite Hn.
    - now destruct (Hf e rest).
    - now rewrite find_coll_with_faults, Hn. }
  split; [apply health_check_reads|]. split; [|split; [exact Hfail|split; [exact Hgone|split]]].
  - split.
    + intros [e Hrun]. destruct (health_check w) as [[h|e0] w'] eqn:Hrun'; [discriminate|].
      unfold health_check, getenv_api_key, doc_exists, get_chroma_collection in Hrun'.
      rewrite !bind_eq in Hrun'.
      destruct (chroma_collection w) as [c|]; [|discriminate].
      exists c. split; [reflexivity|]. rewrite bind_eq in Hrun'.
      destruct (coll_get_ids_outcome c w)
        as (w1 & [(e1 & _ & Hwhy) | (stored & _ & Hok)]); [exact Hwhy|].
      rewrite Hok in Hrun'. discriminate.
    + intros (c & Hc & [Hn | (e' & rest & Hf)]).
      * destruct (faults w) as [|[e|] rest] eqn:Hf.
        -- exists (CollectionNotFound c). apply (Hgone c Hc Hn). discriminate.
        -- exists e. now apply (Hfail c e rest).
        -- exists (CollectionNotFound c). apply (Hgone c Hc Hn). discriminate.
      * exists e'. now apply (Hfail c e' rest).
  - intros h Hrun. destruct (health_check w) as [r w'] eqn:E. cbn [fst] in Hrun. subst r.
    destruct (health_check_ok w h w' E) as (Hs & _ & _ & Hc & _ & _ & Hl).
    split; [exact Hs|]. split; [|exact Hl].
    rewrite Hc. destruct (chroma_collection w); split; congruence.
  - intros Hf Hinv. unfold health_check, getenv_api_key, doc_exists,
      get_chroma_collection. rewrite !bind_eq.
    destruct (chroma_collection w) as [c|] eqn:Hc; [|eexists; reflexivity].
    rewrite bind_eq. specialize (Hinv c Hc).
    destruct (find_coll c w) as [stored|] eqn:Hst; [|contradiction].
    rewrite (coll_get_ids_quiet c w stored Hf Hst). eexists; reflexivity.
Qed.

(** X15.  Whenever the health route returns, its two credential flags
    together say what load_environment says: [api_configured] and
    [api_key_valid] are both true exactly when load_environment, its own
    two calls succeeding, answers [True], and whenever load_environment
    returns, its answer is the conjunction of the two flags.  Taken
    alone, [api_key_valid] is also true for the empty key, which is the
    only case where it is true while [api_configured] is false. *)
Theorem health_check_credential_flags (w : world) (h : health) :
  fst (health_check w) = Ok h ->
  (api_configured h && api_key_valid h = true <->
   fst (load_environment (with_faults [] w)) = Ok true) /\
  (forall b, fst (load_environment w) = Ok b ->
     b = api_configured h && api_key_valid h) /\
  (api_configured h = false /\ api_key_valid h = true <-> api_key_env w = Some []).
Proof.
  intro Hrun. destruct (health_check w) as [r w'] eqn:E. cbn [fst] in Hrun. subst r.
  destruct (health_check_ok w h w' E) as (_ & Hc & Hv & _).
  rewrite Hc, Hv, !load_environment_cases. cbn [fst faults with_faults api_key_env].
  split; [|split].
  - destruct (api_key_env w) as [k|]; cbn [key_missing].
    + rewrite negb_involutive.
      split; [intro H; now rewrite H | intro H; now injection H].
    + cbn [negb andb]. split; discriminate.
  - intros b Hb.
    assert (Hval : Ok match api_key_env w with
                      | Some k => truthy k && negb (str_eqb k placeholder_key)
                      | None => false
                      end = Ok b)
      by (destruct (faults w) as [|[e|] [|[e'|] rest]];
          cbn [fst] in Hb; first [exact Hb | discriminate Hb]).
    injection Hval as <-.
    destruct (api_key_env w) as [k|]; cbn [key_missing]; [|reflexivity].
    now rewrite negb_involutive.
  - destruct (api_key_env w) as [k|]; cbn [key_missing].
    + rewrite negb_involutive. destruct k as [|c k]; cbn [truthy].
      * split; [reflexivity | intros _; split; reflexivity].
      * split; [intros [H _]; discriminate | discriminate].
    + cbn [negb]. split; [intros [_ H]; discriminate | discriminate].
Qed.

Lemma health_check_credential_flags_witness :
  fst (health_check placeholder_world)
    = Ok {| status := lit "healthy"; api_configured := true; api_key_valid := false;
            chromadb_connected := false; document_loaded := false;
            document_exists := false; document_location := lit "not_found" |} /\
  (true && false = true <->
   fst (load_environment (with_faults [] placeholder_world)) = Ok true) /\
  (forall b, fst (load_environment placeholder_world) = Ok b -> b = true && false) /\
  (true = false /\ false = true <-> api_key_env placeholder_world = Some []).
Proof.
  split; [vm_compute; reflexivity|].
  apply (health_check_credential_flags placeholder_world
           {| status := lit "healthy"; api_configured := true; api_key_valid := false;
              chromadb_connected := false; document_loaded := false;
              document_exists := false; document_location := lit "not_found" |}).
  vm_compute. reflexivity.
Defined.

(** X16.  Whenever the health route returns, what it says about the
    document agrees with the ingestion: [document_exists] is true
    exactly when the ingestion finds a document, and
    [document_location] names the candidate the ingestion reads,
    [my_data] before the current directory. *)
Theorem health_check_names_ingested_document (w : world) (h : health) :
  fst (health_check w) = Ok h ->
  (document_exists h = true <-> source_document w <> None) /\
  match fst (locate_document w) with
  | Ok (Some InMyData) =>
      document_location h = lit "my_data" /\ source_document w = doc_my_data w
  | Ok (Some InCurrent) =>
      document_location h = lit "current" /\ source_document w = doc_current w
  | Ok None => document_location h = lit "not_found"
  | Raise _ => False
  end.
Proof.
  intro Hrun. destruct (health_check w) as [r w'] eqn:E. cbn [fst] in Hrun. subst r.
  destruct (health_check_ok w h w' E) as (_ & _ & _ & _ & He & Hl & _).
  rewrite He, Hl.
  unfold locate_document, bind, doc_exists, doc_at, ret, source_document.
  destruct (doc_my_data w) as [a|]; cbn [fst].
  - repeat split; congruence.
  - destruct (doc_current w) as [b|]; cbn [fst]; repeat split; congruence.
Qed.

Lemma health_check_names_ingested_document_witness :
  fst (health_check letters_world)
    = Ok {| status := lit "healthy"; api_configured := true; api_key_valid := true;
            chromadb_connected := false; document_loaded := false;
            document_exists := true; document_location := lit "my_data" |} /\
  (true = true <-> source_document letters_world <> None) /\
  match fst (locate_document letters_world) with
  | Ok (Some InMyData) =>
      lit "my_data" = lit "my_data" /\
      source_document letters_world = doc_my_data letters_world
  | Ok (Some InCurrent) =>
      lit "my_data" = lit "current" /\
      source_document letters_world = doc_current letters_world
  | Ok None => lit "my_data" = lit "not_found"
  | Raise _ => False
  end.
Proof.
  split; [vm_compute; reflexivity|].
  apply (health_check_names_ingested_document letters_world
           {| status := lit "healthy"; api_configured := true; api_key_valid := true;
              chromadb_connected := false; document_loaded := false;
              document_exists := true; document_location := lit "my_data" |}).
  vm_compute. reflexivity.
Defined.

(** X17.  After a start-up in which no call fails and a document is
    found, the health route returns and reports the store as connected
    and the document as existing; it reports the document as loaded
    exactly when the document is not empty or whitespace-only. *)
Theorem health_check_after_startup (w : world) (content : str) :
  faults w = [] ->
  source_document w = Some content ->
  exists h : health,
    fst (health_check (snd (startup w))) = Ok h /\
    chromadb_connected h = true /\
    document_exists h = true /\
    (document_loaded h = true <-> truthy (strip content) = true).
Proof.
  intros Hf Hsrc.
  assert (Hs : 0 < chunk_size) by (unfold chunk_size; lia).
  destruct (chunk_facts content chunk_size Hs) as (raw & _ & Hchunk & _).
  set (chunks := filter (fun c => negb (whitespace_only c)) raw) in *.
  destruct (startup_quiet w content chunks Hf Hsrc Hchunk)
    as (w1 & -> & (Hf1 & Hg1 & Hd1 & Ho1) & Hsrc1). cbn [snd].
  assert (Hst : find_coll collection_name w1 = Some (combine (chunk_ids chunks) chunks)).
  { unfold find_coll. rewrite Hd1. apply lookup_single. }
  assert (Hrun : exists h w2, health_check w1 = (Ok h, w2)).
  { unfold health_check, getenv_api_key, doc_exists, get_chroma_collection.
    rewrite !bind_eq, Hg1, bind_eq.
    rewrite (coll_get_ids_quiet collection_name w1 _ Hf1 Hst).
    unfold ret. do 2 eexists. reflexivity. }
  destruct Hrun as (h & w2 & Hrun). exists h. rewrite Hrun. split; [reflexivity|].
  destruct (health_check_ok w1 h w2 Hrun) as (_ & _ & _ & Hc & He & _ & Hl).
  rewrite Hc, Hg1, He, Hsrc1. split; [reflexivity|]. split; [reflexivity|].
  rewrite Hl. pose proof (chunk_nil_iff content chunk_size chunks Hs Hchunk) as Hnil.
  split.
  - intros (c & stored & Hc' & Hst' & Hne). rewrite Hg1 in Hc'. injection Hc' as <-.
    rewrite Hst in Hst'. injection Hst' as <-.
    destruct (truthy (strip content)); [reflexivity|].
    assert (chunks = []) as Hn by now apply Hnil. rewrite Hn in Hne. now contradiction Hne.
  - intro Ht. exists collection_name, (combine (chunk_ids chunks) chunks).
    split; [exact Hg1|]. split; [exact Hst|].
    destruct chunks as [|x chunks']; [|discriminate].
    assert (truthy (strip content) = false) by now apply Hnil. congruence.
Qed.

Lemma health_check_after_startup_witness :
  faults letters_world = [] /\
  source_document letters_world = Some letters_2500 /\
  exists h : health,
    fst (health_check (snd (startup letters_world))) = Ok h /\
    chromadb_connected h = true /\
    document_exists h = true /\
    (document_loaded h = true <-> truthy (strip letters_2500) = true).
Proof.
  split; [reflexivity|]. split; [reflexivity|].
  apply (health_check_after_startup letters_world letters_2500); reflexivity.
Defined.

Lemma is_prefix_firstn (n : nat) (t : str) : is_prefix (firstn n t) t = true.
Proof.
  revert n; induction t as [|c t IH]; intros [|n]; simpl; try reflexivity.
  now rewrite N.eqb_refl, IH.
Qed.

Lemma debug_info_reads (os : probe) : preserves only_faults_differ (debug_info os).
Proof. unfold debug_info, probe_getsize, probe_getcwd. reads_only. Qed.

Ltac debug_cases w :=
  destruct w as [k d [m|] [c|] ds rm sn f [g|] o r lf so];
  cbn [faults doc_my_data doc_current chroma_collection api_key_env Nat.add];
  destruct f as [|[e1|] [|[e2|] [|[e3|] [|[e4|] rest]]]].

(** X18.  The debug route only reads, and nothing in it catches: it
    raises exactly when one of the calls it makes fails, which are
    os.path.getsize for each candidate document that exists, os.getcwd()
    and, when the global handle is set, os.getcwd() once more.  When it
    returns, it discloses of the credential at most the first ten
    characters, followed by ["..."], and nothing when there is no key or
    an empty one; it gives a store path exactly when the global handle
    is set, gives size 0 for a candidate document that does not exist,
    and agrees with the health route on the presence of the key, on the
    connection to the store and on the existence of the document. *)
Theorem debug_info_discloses_key_prefix (os : probe) (w : world) :
  let calls :=
    match doc_my_data w with Some _ => 1 | None => 0 end
    + match doc_current w with Some _ => 1 | None => 0 end
    + 1
    + match chroma_collection w with Some _ => 1 | None => 0 end in
  only_faults_differ w (snd (debug_info os w)) /\
  ((exists e, fst (debug_info os w) = Raise e) <->
   exists e, In (Some e) (firstn calls (faults w))) /\
  forall d : debug, fst (debug_info os w) = Ok d ->
    match api_key_env w with
    | Some key =>
        if truthy key then
          exists p, api_key_prefix d = Some (p ++ lit "...") /\
                    is_prefix p key = true /\ length p = Nat.min 10 (length key)
        else api_key_prefix d = None
    | None => api_key_prefix d = None
    end /\
    current_directory d = getcwd os /\
    (chromadb_path d = None <-> chroma_collection w = None) /\
    (doc_my_data w = None -> document_size_my_data d = 0) /\
    (doc_current w = None -> document_size_current d = 0) /\
    forall h, fst (health_check w) = Ok h ->
      api_key_exists d = api_configured h /\
      document_exists_my_data d || document_exists_current d = document_exists h /\
      (chromadb_status d = lit "connected" <-> chromadb_connected h = true).
Proof.
  cbv zeta. split; [apply debug_info_reads|]. split.
  - debug_cases w; cbn -[lit slice path_join];
      (split;
       [ intros [e H]; first [discriminate H | eexists; eauto 6]
       | intros [e H];
         first [ eexists; reflexivity
               | exfalso; cbn in H; intuition discriminate ] ]).
  - intros dbg Hrun.
    assert (Hhealth : forall h, fst (health_check w) = Ok h ->
              api_configured h = negb (key_missing (api_key_env w)) /\
              chromadb_connected h =
                match chroma_collection w with Some _ => true | None => false end /\
              document_exists h =
                match source_document w with Some _ => true | None => false end).
    { intros h Hh. destruct (health_check w) as [x w'] eqn:E. cbn [fst] in Hh. subst x.
      destruct (health_check_ok w h w' E) as (_ & Hc & _ & Hcon & He & _). auto. }
    revert Hrun Hhealth. unfold source_document.
    debug_cases w; cbn -[lit slice path_join]; intros Hrun Hhealth;
      try discriminate Hrun; injection Hrun as <-; cbn -[lit slice path_join];
      (split;
       [ destruct k as [key|]; [|reflexivity];
         destruct (truthy key); [|reflexivity];
         exists (firstn 10 key); split; [reflexivity|];
         split; [apply is_prefix_firstn | apply length_firstn]
       | split; [reflexivity|];
         split; [split; congruence|];
         split; [try discriminate; reflexivity|];
         split; [try discriminate; reflexivity|];
         intros h Hh; destruct (Hhealth h Hh) as (-> & -> & ->);
         split; [reflexivity|]; split; [reflexivity|];
         split; try reflexivity; intro H; vm_compute in H; discriminate ]).
Qed.

(** X19.  The completion is read from a response body exactly when the
    body parses to an object whose ["choices"] is a list that starts
    with an object whose ["message"] is an object with a ["content"]
    entry; the completion is then that entry.  Every other body raises
    inside ask_deepseek, which turns it into a "Network Error" answer. *)
Theorem completion_text_needs_shape (r : http_response) (c : json) :
  completion_text r = Ok c <->
  exists top choice others message,
    json_body r = Ok (JObj top) /\
    lookup (lit "choices") top = Some (JArr (JObj choice :: others)) /\
    lookup (lit "message") choice = Some (JObj message) /\
    lookup (lit "content") message = Some c.
Proof. exact (completion_text_iff r c). Qed.

(** ** The further properties at sample worlds *)

Lemma setup_chromadb_unavailable_though_present_witness :
  faults (with_faults [Some (ExternalError (lit "Permission denied")); None;
                       Some (ExternalError (lit "locked"))] loaded_store_world)
    = [Some (ExternalError (lit "Permission denied")); None;
       Some (ExternalError (lit "locked"))] /\
  chroma_dir (with_faults [Some (ExternalError (lit "Permission denied")); None;
                           Some (ExternalError (lit "locked"))] loaded_store_world)
    = Some [(collection_name, [(lit "chunk_0", lit "I like hiking.")])] /\
  chroma_removed (with_faults [Some (ExternalError (lit "Permission denied")); None;
                               Some (ExternalError (lit "locked"))] loaded_store_world)
    = false /\
  lookup collection_name
    (leftover (with_faults [Some (ExternalError (lit "Permission denied")); None;
                            Some (ExternalError (lit "locked"))] loaded_store_world)
       [(collection_name, [(lit "chunk_0", lit "I like hiking.")])])
    = Some [(lit "chunk_0", lit "I like hiking.")] /\
  fst (setup_chromadb
         (with_faults [Some (ExternalError (lit "Permission denied")); None;
                       Some (ExternalError (lit "locked"))] loaded_store_world))
    = Ok None /\
  find_coll collection_name
    (snd (setup_chromadb
            (with_faults [Some (ExternalError (lit "Permission denied")); None;
                          Some (ExternalError (lit "locked"))] loaded_store_world)))
    = Some [(lit "chunk_0", lit "I like hiking.")] /\
  chroma_dir
    (snd (setup_chromadb
            (with_faults [Some (ExternalError (lit "Permission denied")); None;
                          Some (ExternalError (lit "locked"))] loaded_store_world)))
    = Some (leftover
              (with_faults [Some (ExternalError (lit "Permission denied")); None;
                            Some (ExternalError (lit "locked"))] loaded_store_world)
              [(collection_name, [(lit "chunk_0", lit "I like hiking.")])]).
Proof.
  split; [reflexivity|]. split; [reflexivity|]. split; [reflexivity|].
  split; [reflexivity|].
  apply (setup_chromadb_unavailable_though_present
           (with_faults [Some (ExternalError (lit "Permission denied")); None;
                         Some (ExternalError (lit "locked"))] loaded_store_world)
           (ExternalError (lit "Permission denied")) (ExternalError (lit "locked"))
           [(collection_name, [(lit "chunk_0", lit "I like hiking.")])]
           [(lit "chunk_0", lit "I like hiking.")]); reflexivity.
Defined.

Lemma reset_chroma_fails_only_on_removal_witness :
  exists (rep : reset_reply) (w' : world),
    reset_chroma class_name
      (with_nothing_left (with_collection (Some collection_name) locked_store_world))
      = (Ok rep, w') /\
    reset_success rep = false /\
    message rep = lit "Error resetting ChromaDB: Permission denied" /\
    chroma_collection w' = Some collection_name /\
    chroma_dir w' = Some [] /\
    faults w' = [].
Proof.
  destruct (reset_chroma_fails_only_on_removal class_name
              (with_nothing_left
                 (with_collection (Some collection_name) locked_store_world)))
    as (rep & w' & Hrun & Hiff & Hfail & _).
  exists rep, w'. split; [exact Hrun|].
  split; [apply Hiff; do 3 eexists; repeat split; reflexivity|].
  exact (Hfail _ _ _ eq_refl eq_refl eq_refl).
Defined.

Lemma reset_chroma_success_without_store_witness :
  chroma_dir (with_faults [Some FileNotFound; Some FileNotFound] placeholder_world) = None /\
  faults (with_faults [Some FileNotFound; Some FileNotFound] placeholder_world)
    = [Some FileNotFound; Some FileNotFound] /\
  reset_chroma class_name
    (with_faults [Some FileNotFound; Some FileNotFound] placeholder_world) =
    (Ok {| reset_success := true; message := lit "ChromaDB reset successfully" |},
     with_collection None
       (with_faults [] (with_faults [Some FileNotFound; Some FileNotFound] placeholder_world))) /\
  forall question,
    retrieve question
      (with_collection None
         (with_faults [] (with_faults [Some FileNotFound; Some FileNotFound] placeholder_world))) =
    (Ok [],
     with_collection None
       (with_faults [] (with_faults [Some FileNotFound; Some FileNotFound] placeholder_world))).
Proof.
  split; [reflexivity|]. split; [reflexivity|].
  apply (reset_chroma_success_without_store class_name
           (with_faults [Some FileNotFound; Some FileNotFound] placeholder_world)
           FileNotFound FileNotFound []); reflexivity.
Defined.

Example reset_on_locked_store :
  fst (reset_chroma class_name (with_collection (Some collection_name) locked_store_world))
  = Ok {| reset_success := false;
          message := lit "Error resetting ChromaDB: Permission denied" |}.
Proof. vm_compute. reflexivity. Qed.
